(* Verification model of the signaling relay in src/video_file_demo/main.py:
   the ConnectionManager (a dict from client id to WebSocket), its
   broadcast of the user list, the routing of directed messages and the
   websocket_endpoint session loop with its two exception handlers; and,
   in module [Bridge], the frame streamer of
   src/browser_python_bridge/main.py (RESOLUTIONS, VideoSource.get_frame
   and stream_video). *)

From Stdlib Require Import List String ZArith Bool Lia.
Import ListNotations.
Open Scope string_scope.
Open Scope list_scope.
Set Warnings "-register-all".

(* ------------------------------------------------------------------ *)
(** * JSON values as json.loads returns them *)

(** Python values produced by [json.loads]: None, bool, numbers (kept as
    integers here), str, list and dict.  A dict is kept as its list of
    (key, value) pairs in insertion order, as CPython stores it. *)
Inductive json : Type :=
| JNull
| JBool (b : bool)
| JNum (n : Z)
| JStr (s : string)
| JArr (l : list json)
| JObj (fields : list (string * json)).

(** Truth value of a Python object ([if target_id:]). *)
Definition truthy (j : json) : bool :=
  match j with
  | JNull => false
  | JBool b => b
  | JNum n => negb (Z.eqb n 0)
  | JStr s => negb (String.eqb s "")
  | JArr l => match l with [] => false | _ => true end
  | JObj f => match f with [] => false | _ => true end
  end.

(** [d.get(k)] on the fields of a decoded JSON object. *)
Fixpoint obj_get (fs : list (string * json)) (k : string) : option json :=
  match fs with
  | [] => None
  | (k', v) :: t => if String.eqb k' k then Some v else obj_get t k
  end.

(** [d[k] = v] on the fields of a dict: an existing key keeps its slot,
    a new key is appended. *)
Fixpoint obj_setitem (fs : list (string * json)) (k : string) (v : json)
  : list (string * json) :=
  match fs with
  | [] => [(k, v)]
  | (k', v') :: t =>
      if String.eqb k' k then (k, v) :: t else (k', v') :: obj_setitem t k v
  end.

(* ------------------------------------------------------------------ *)
(** * The active_connections dict *)

(** A WebSocket object, known by its identity. *)
Definition handle := nat.

(** CPython's dict entry table: entries in insertion order; [del] leaves
    a hole ([None]) in place and a new key is appended at the end.  The
    table is never compacted in this model. *)
Definition dict := list (option (string * handle)).

Definition empty_dict : dict := [].

(** [d.get(k)] / [d[k]] for a present key. *)
Fixpoint dict_lookup (d : dict) (k : string) : option handle :=
  match d with
  | [] => None
  | Some (k', v) :: t => if String.eqb k' k then Some v else dict_lookup t k
  | None :: t => dict_lookup t k
  end.

(** [k in d]. *)
Definition dict_contains (d : dict) (k : string) : bool :=
  match dict_lookup d k with Some _ => true | None => false end.

(** [list(d.keys())]. *)
Fixpoint dict_keys (d : dict) : list string :=
  match d with
  | [] => []
  | Some (k, _) :: t => k :: dict_keys t
  | None :: t => dict_keys t
  end.

(** [list(d.values())]. *)
Fixpoint dict_values (d : dict) : list handle :=
  match d with
  | [] => []
  | Some (_, v) :: t => v :: dict_values t
  | None :: t => dict_values t
  end.

(** [len(d)]. *)
Definition dict_len (d : dict) : nat := List.length (dict_keys d).

(** [d[k] = v]. *)
Fixpoint dict_setitem (d : dict) (k : string) (v : handle) : dict :=
  match d with
  | [] => [Some (k, v)]
  | Some (k', v') :: t =>
      if String.eqb k' k then Some (k, v) :: t
      else Some (k', v') :: dict_setitem t k v
  | None :: t => None :: dict_setitem t k v
  end.

(** [del d[k]], reached only when [k in d] holds. *)
Fixpoint dict_delitem (d : dict) (k : string) : dict :=
  match d with
  | [] => []
  | Some (k', v') :: t =>
      if String.eqb k' k then None :: t else Some (k', v') :: dict_delitem t k
  | None :: t => None :: dict_delitem t k
  end.

(** Iterator of [d.values()] (CPython's [dictiter_iternextvalue]): a
    position in the entry table, the size of the dict when the iterator
    was created ([di_used]) and the number of values still expected
    ([len]).  [next] raises RuntimeError ("dictionary changed size during
    iteration") when the size differs; otherwise it looks for the first
    entry at or after the position, and raises RuntimeError ("dictionary
    keys changed during iteration") when it finds one while expecting no
    more values. *)
Record dict_iter := { it_pos : nat; it_used : nat; it_len : nat }.

Inductive iter_step :=
| IterRaise
| IterEnd
| IterItem (h : handle) (next : dict_iter).

Fixpoint entry_from (d : dict) (i pos : nat) : option (nat * handle) :=
  match d with
  | [] => None
  | e :: t =>
      if Nat.leb pos i then
        match e with
        | Some (_, v) => Some (i, v)
        | None => entry_from t (S i) pos
        end
      else entry_from t (S i) pos
  end.

Definition iter_values (d : dict) : dict_iter :=
  {| it_pos := 0; it_used := dict_len d; it_len := dict_len d |}.

Definition iter_next (d : dict) (it : dict_iter) : iter_step :=
  if negb (Nat.eqb (dict_len d) (it_used it)) then IterRaise
  else match entry_from d 0 (it_pos it) with
       | None => IterEnd
       | Some (i, h) =>
           match it_len it with
           | O => IterRaise
           | S l => IterItem h {| it_pos := S i; it_used := it_used it; it_len := l |}
           end
       end.

(* ------------------------------------------------------------------ *)
(** * The event-loop world seen by one websocket_endpoint task *)

(** Exceptions the code raises or lets through; all are subclasses of
    [Exception], so the endpoint's [except Exception] catches each one. *)
Inductive exc :=
| WebSocketDisconnect
| JSONDecodeError
| AttributeError
| TypeError
| KeyError
| RuntimeError
| SendFailure.

(** What the transport does with a [send_json] on a given socket. *)
Inductive send_behaviour :=
| SendOk
| SendRaise (e : exc)
| SendHang.

(** What [websocket.receive_text()] yields next. *)
Inductive frame :=
| RxText (data : string)
| RxClose.

(** The [print] calls of main.py. *)
Inductive logline :=
| LogNewConnection (client_id : string)
| LogConnectionClosed (client_id : string)
| LogRecipientNotFound (recipient_id : json)
| LogNoTarget (client_id : string)
| LogError (client_id : string) (e : exc).

Record world := mkWorld {
  registry : dict;                          (* manager.active_connections *)
  inbox : list frame;                       (* frames still to be received *)
  outbox : list (handle * json);            (* send_json calls that completed *)
  logs : list logline;                      (* printed lines *)
  socket : handle -> send_behaviour         (* transport behaviour per socket *)
}.

(** Outcome of a step of the task: a value, a raised exception, or the
    task suspended at an await that does not resume (a receive with no
    frame left, or a send the transport never accepts). *)
Inductive res (A : Type) :=
| ROk (a : A)
| RExc (e : exc)
| RBlock.
Arguments ROk {A} a.
Arguments RExc {A} e.
Arguments RBlock {A}.

Definition M (A : Type) := world -> res A * world.

Definition ret {A} (a : A) : M A := fun w => (ROk a, w).

Definition bind {A B} (m : M A) (k : A -> M B) : M B :=
  fun w =>
    match m w with
    | (ROk a, w') => k a w'
    | (RExc e, w') => (RExc e, w')
    | (RBlock, w') => (RBlock, w')
    end.

Notation "x <- m ;; k" := (bind m (fun x => k))
  (at level 61, m at next level, right associativity).
Notation "m ;;; k" := (bind m (fun _ => k))
  (at level 61, right associativity).

Definition raise {A} (e : exc) : M A := fun w => (RExc e, w).

Definition block {A} : M A := fun w => (RBlock, w).

(** [try: m except e: h e]. *)
Definition try_except {A} (m : M A) (h : exc -> M A) : M A :=
  fun w =>
    match m w with
    | (RExc e, w') => h e w'
    | r => r
    end.

Definition get_registry : M dict := fun w => (ROk (registry w), w).

Definition set_registry (d : dict) : M unit :=
  fun w => (ROk tt, mkWorld d (inbox w) (outbox w) (logs w) (socket w)).

Definition print (l : logline) : M unit :=
  fun w => (ROk tt, mkWorld (registry w) (inbox w) (outbox w)
                            (logs w ++ [l]) (socket w)).

(** [await websocket.send_json(message)]. *)
Definition send_json (ws : handle) (message : json) : M unit :=
  fun w =>
    match socket w ws with
    | SendOk => (ROk tt, mkWorld (registry w) (inbox w)
                               (outbox w ++ [(ws, message)]) (logs w) (socket w))
    | SendRaise e => (RExc e, w)
    | SendHang => (RBlock, w)
    end.

(** [await websocket.receive_text()] on the endpoint's own socket. *)
Definition receive_text : M string :=
  fun w =>
    match inbox w with
    | [] => (RBlock, w)
    | RxText s :: rest =>
        (ROk s, mkWorld (registry w) rest (outbox w) (logs w) (socket w))
    | RxClose :: rest =>
        (RExc WebSocketDisconnect,
         mkWorld (registry w) rest (outbox w) (logs w) (socket w))
    end.

Definition inbox_length : M nat := fun w => (ROk (List.length (inbox w)), w).

(** [await websocket.accept()]: the handshake belongs to the transport and
    is taken to succeed. *)
Definition accept (websocket : handle) : M unit := ret tt.

Definition lift {A} (r : res A) : M A := fun w => (r, w).

(* ------------------------------------------------------------------ *)
(** * ConnectionManager *)

(** [{"type": "users", "data": user_list}]. *)
Definition users_message (user_list : list string) : json :=
  JObj [("type", JStr "users"); ("data", JArr (map JStr user_list))].

(** [for connection in self.active_connections.values():
         await connection.send_json(message)]: the iterator is advanced on
    the dict as it is when the loop resumes after each send. *)
Fixpoint send_each (fuel : nat) (message : json) (it : dict_iter) : M unit :=
  match fuel with
  | O => ret tt
  | S f =>
      d <- get_registry;;
      match iter_next d it with
      | IterRaise => raise RuntimeError
      | IterEnd => ret tt
      | IterItem connection it' =>
          send_json connection message;;; send_each f message it'
      end
  end.

Definition broadcast_user_list : M unit :=
  d <- get_registry;;
  let user_list := dict_keys d in
  let message := users_message user_list in
  send_each (S (List.length d)) message (iter_values d).

Definition connect (websocket : handle) (client_id : string) : M unit :=
  accept websocket;;;
  d <- get_registry;;
  set_registry (dict_setitem d client_id websocket);;;
  print (LogNewConnection client_id);;;
  broadcast_user_list.

Definition disconnect (client_id : string) : M unit :=
  d <- get_registry;;
  if dict_contains d client_id then
    set_registry (dict_delitem d client_id);;;
    print (LogConnectionClosed client_id)
  else ret tt.

(** [recipient_id in self.active_connections] for a JSON value: a str is
    looked up; list and dict are unhashable (TypeError); None, bool and
    numbers are hashable and never equal to a str key. *)
Definition json_contains (d : dict) (key : json) : res bool :=
  match key with
  | JStr s => ROk (dict_contains d s)
  | JArr _ | JObj _ => RExc TypeError
  | _ => ROk false
  end.

(** [self.active_connections[recipient_id]]. *)
Definition json_getitem (d : dict) (key : json) : res handle :=
  match key with
  | JStr s => match dict_lookup d s with Some h => ROk h | None => RExc KeyError end
  | JArr _ | JObj _ => RExc TypeError
  | _ => RExc KeyError
  end.

Definition send_personal_message (message : json) (recipient_id : json) : M unit :=
  d <- get_registry;;
  present <- lift (json_contains d recipient_id);;
  if present then
    websocket <- lift (json_getitem d recipient_id);;
    send_json websocket message
  else print (LogRecipientNotFound recipient_id).

(* ------------------------------------------------------------------ *)
(** * websocket_endpoint *)

(** [message.get(key)]: only a dict has [get]. *)
Definition message_get (message : json) (key : string) : M json :=
  match message with
  | JObj fs => ret (match obj_get fs key with Some v => v | None => JNull end)
  | _ => raise AttributeError
  end.

(** [message[key] = v]. *)
Definition message_setitem (message : json) (key : string) (v : json) : M json :=
  match message with
  | JObj fs => ret (JObj (obj_setitem fs key v))
  | _ => raise TypeError
  end.

Section Endpoint.

(** [json.loads]: [None] when the text is not valid JSON. *)
Variable json_loads : string -> option json.

(** One pass of the [while True:] body. *)
Definition loop_iteration (client_id : string) : M unit :=
  data <- receive_text;;
  match json_loads data with
  | None => raise JSONDecodeError
  | Some message =>
      target_id <- message_get message "target";;
      if truthy target_id then
        message' <- message_setitem message "from" (JStr client_id);;
        send_personal_message message' target_id
      else print (LogNoTarget client_id)
  end.

(** [while True: ...]; [fuel] bounds the passes, each of which consumes one
    received frame, and running out of it counts as still looping. *)
Fixpoint receive_loop (fuel : nat) (client_id : string) : M unit :=
  match fuel with
  | O => block
  | S f => loop_iteration client_id;;; receive_loop f client_id
  end.

(** The two [except] clauses of websocket_endpoint. *)
Definition on_session_error (client_id : string) (e : exc) : M unit :=
  match e with
  | WebSocketDisconnect =>
      disconnect client_id;;; broadcast_user_list
  | _ =>
      print (LogError client_id e);;;
      disconnect client_id;;;
      broadcast_user_list
  end.

Definition websocket_endpoint (websocket : handle) (client_id : string) : M unit :=
  connect websocket client_id;;;
  n <- inbox_length;;
  try_except (receive_loop (S n) client_id) (on_session_error client_id).

End Endpoint.

(** The part of websocket_endpoint after [connect]: the [try] block with
    its handlers. *)
Definition session_loop (json_loads : string -> option json)
  (client_id : string) : M unit :=
  n <- inbox_length;;
  try_except (receive_loop json_loads (S n) client_id) (on_session_error client_id).

(** Sending one message to each socket of a list, in order. *)
Fixpoint send_all (hs : list handle) (message : json) : M unit :=
  match hs with
  | [] => ret tt
  | h :: t => send_json h message;;; send_all t message
  end.

(** First entry of a suffix of the table whose first slot has index [i]. *)
Fixpoint first_entry (t : dict) (i : nat) : option (nat * handle) :=
  match t with
  | [] => None
  | Some (_, v) :: _ => Some (i, v)
  | None :: t' => first_entry t' (S i)
  end.

(* ------------------------------------------------------------------ *)
(** * Lemmas on the dict *)

Lemma eqb_refl_string (s : string) : String.eqb s s = true.
Proof. apply String.eqb_refl. Qed.

Lemma dict_lookup_setitem_eq (d : dict) (k : string) (v : handle) :
  dict_lookup (dict_setitem d k v) k = Some v.
Proof.
  induction d as [|[[k' v']|] t IH]; cbn; try rewrite eqb_refl_string; auto.
  destruct (String.eqb k' k) eqn:E; cbn; try rewrite eqb_refl_string; auto.
  rewrite E; exact IH.
Qed.

Lemma dict_lookup_setitem_neq (d : dict) (k k' : string) (v : handle) :
  k' <> k -> dict_lookup (dict_setitem d k v) k' = dict_lookup d k'.
Proof.
  intros Hne.
  assert (Hf : String.eqb k k' = false) by (apply String.eqb_neq; congruence).
  induction d as [|[[k0 v0]|] t IH]; cbn.
  - rewrite Hf; reflexivity.
  - destruct (String.eqb k0 k) eqn:E; cbn.
    + apply String.eqb_eq in E; subst k0. rewrite Hf; reflexivity.
    + destruct (String.eqb k0 k'); auto.
  - exact IH.
Qed.

Lemma dict_lookup_delitem_neq (d : dict) (k k' : string) :
  k' <> k -> dict_lookup (dict_delitem d k) k' = dict_lookup d k'.
Proof.
  intros Hne.
  induction d as [|[[k0 v0]|] t IH]; cbn; auto.
  destruct (String.eqb k0 k) eqn:E; cbn.
  - apply String.eqb_eq in E; subst k0.
    assert (Hf : String.eqb k k' = false) by (apply String.eqb_neq; congruence).
    rewrite Hf; reflexivity.
  - destruct (String.eqb k0 k'); auto.
Qed.

Lemma dict_lookup_in_keys (d : dict) (k : string) :
  dict_lookup d k = None <-> ~ In k (dict_keys d).
Proof.
  induction d as [|[[k0 v0]|] t IH]; cbn.
  - tauto.
  - destruct (String.eqb k0 k) eqn:E.
    + apply String.eqb_eq in E; subst. split; [discriminate | tauto].
    + apply String.eqb_neq in E. rewrite IH. intuition.
  - exact IH.
Qed.

Lemma dict_contains_in_keys (d : dict) (k : string) :
  dict_contains d k = true <-> In k (dict_keys d).
Proof.
  unfold dict_contains. pose proof (dict_lookup_in_keys d k) as H.
  destruct (dict_lookup d k); split; intros Hc; try discriminate; auto.
  - destruct (in_dec string_dec k (dict_keys d)) as [Hi|Hi]; auto.
    apply H in Hi. discriminate.
  - exfalso. apply (proj1 H eq_refl). exact Hc.
Qed.

Lemma dict_keys_setitem_in (d : dict) (k : string) (v : handle) :
  In k (dict_keys d) -> dict_keys (dict_setitem d k v) = dict_keys d.
Proof.
  induction d as [|[[k0 v0]|] t IH]; cbn; intros Hin.
  - contradiction.
  - destruct (String.eqb k0 k) eqn:E; cbn.
    + apply String.eqb_eq in E; subst; reflexivity.
    + apply String.eqb_neq in E. f_equal. apply IH. destruct Hin; congruence.
  - apply IH; exact Hin.
Qed.

Lemma dict_keys_setitem_notin (d : dict) (k : string) (v : handle) :
  ~ In k (dict_keys d) -> dict_keys (dict_setitem d k v) = dict_keys d ++ [k].
Proof.
  induction d as [|[[k0 v0]|] t IH]; cbn; intros Hin.
  - reflexivity.
  - destruct (String.eqb k0 k) eqn:E; cbn.
    + apply String.eqb_eq in E; subst. exfalso; auto.
    + f_equal. apply IH. auto.
  - apply IH; auto.
Qed.

Lemma dict_keys_setitem_nodup (d : dict) (k : string) (v : handle) :
  NoDup (dict_keys d) -> NoDup (dict_keys (dict_setitem d k v)).
Proof.
  intros Hnd. destruct (in_dec string_dec k (dict_keys d)) as [Hi|Hi].
  - rewrite dict_keys_setitem_in; auto.
  - rewrite dict_keys_setitem_notin; auto.
    apply NoDup_app; auto using NoDup_cons, NoDup_nil.
    intros x Hx [Hy|[]]; subst; auto.
Qed.

Lemma dict_keys_delitem_incl (d : dict) (k x : string) :
  In x (dict_keys (dict_delitem d k)) -> In x (dict_keys d).
Proof.
  induction d as [|[[k0 v0]|] t IH]; cbn; auto.
  destruct (String.eqb k0 k); cbn; intuition.
Qed.

Lemma dict_keys_delitem_nodup (d : dict) (k : string) :
  NoDup (dict_keys d) -> NoDup (dict_keys (dict_delitem d k)).
Proof.
  induction d as [|[[k0 v0]|] t IH]; cbn; intros Hnd; auto.
  inversion Hnd; subst.
  destruct (String.eqb k0 k); cbn; auto.
  constructor; auto. intros Hi; apply dict_keys_delitem_incl in Hi; auto.
Qed.

Lemma dict_lookup_delitem_eq (d : dict) (k : string) :
  NoDup (dict_keys d) -> dict_lookup (dict_delitem d k) k = None.
Proof.
  induction d as [|[[k0 v0]|] t IH]; cbn; intros Hnd; auto.
  inversion Hnd; subst.
  destruct (String.eqb k0 k) eqn:E; cbn.
  - apply String.eqb_eq in E; subst. apply dict_lookup_in_keys; auto.
  - rewrite E. auto.
Qed.

Lemma dict_keys_setitem_has (d : dict) (k : string) (v : handle) :
  In k (dict_keys (dict_setitem d k v)).
Proof.
  destruct (in_dec string_dec k (dict_keys d)) as [Hi|Hi].
  - rewrite dict_keys_setitem_in; auto.
  - rewrite dict_keys_setitem_notin; auto. apply in_or_app; cbn; auto.
Qed.

Lemma dict_lookup_some_in (d : dict) (k : string) (h : handle) :
  dict_lookup d k = Some h -> In k (dict_keys d).
Proof.
  intros H. destruct (in_dec string_dec k (dict_keys d)) as [Hi|Hi]; auto.
  apply dict_lookup_in_keys in Hi. congruence.
Qed.

(* ------------------------------------------------------------------ *)
(** * Which effects a computation leaves alone *)

Definition reg_pres {A} (m : M A) : Prop :=
  forall w, registry (snd (m w)) = registry w.

Definition inbox_pres {A} (m : M A) : Prop :=
  forall w, inbox (snd (m w)) = inbox w.

Create HintDb pres.

Lemma reg_pres_bind {A B} (m : M A) (k : A -> M B) :
  reg_pres m -> (forall a, reg_pres (k a)) -> reg_pres (bind m k).
Proof.
  intros Hm Hk w. unfold bind. specialize (Hm w).
  destruct (m w) as [[a|e|] w'] eqn:E; cbn in *; auto.
  rewrite Hk; auto.
Qed.

Lemma inbox_pres_bind {A B} (m : M A) (k : A -> M B) :
  inbox_pres m -> (forall a, inbox_pres (k a)) -> inbox_pres (bind m k).
Proof.
  intros Hm Hk w. unfold bind. specialize (Hm w).
  destruct (m w) as [[a|e|] w'] eqn:E; cbn in *; auto.
  rewrite Hk; auto.
Qed.

Ltac prim_pres :=
  intro w;
  cbv beta delta [ret raise block lift get_registry set_registry print
                  send_json receive_text inbox_length];
  repeat match goal with
  | |- context [match ?x with _ => _ end] => destruct x
  end; reflexivity.

Lemma reg_pres_ret {A} (a : A) : reg_pres (ret a). Proof. prim_pres. Qed.
Lemma reg_pres_raise {A} e : reg_pres (@raise A e). Proof. prim_pres. Qed.
Lemma reg_pres_block {A} : reg_pres (@block A). Proof. prim_pres. Qed.
Lemma reg_pres_lift {A} (r : res A) : reg_pres (lift r). Proof. prim_pres. Qed.
Lemma reg_pres_get : reg_pres get_registry. Proof. prim_pres. Qed.
Lemma reg_pres_print l : reg_pres (print l). Proof. prim_pres. Qed.
Lemma reg_pres_send_json h m : reg_pres (send_json h m). Proof. prim_pres. Qed.
Lemma reg_pres_receive_text : reg_pres receive_text. Proof. prim_pres. Qed.
Lemma reg_pres_inbox_length : reg_pres inbox_length. Proof. prim_pres. Qed.

Lemma inbox_pres_ret {A} (a : A) : inbox_pres (ret a). Proof. prim_pres. Qed.
Lemma inbox_pres_raise {A} e : inbox_pres (@raise A e). Proof. prim_pres. Qed.
Lemma inbox_pres_block {A} : inbox_pres (@block A). Proof. prim_pres. Qed.
Lemma inbox_pres_lift {A} (r : res A) : inbox_pres (lift r). Proof. prim_pres. Qed.
Lemma inbox_pres_get : inbox_pres get_registry. Proof. prim_pres. Qed.
Lemma inbox_pres_set d : inbox_pres (set_registry d). Proof. prim_pres. Qed.
Lemma inbox_pres_print l : inbox_pres (print l). Proof. prim_pres. Qed.
Lemma inbox_pres_send_json h m : inbox_pres (send_json h m). Proof. prim_pres. Qed.

#[export] Hint Resolve reg_pres_ret reg_pres_raise reg_pres_block reg_pres_lift
  reg_pres_get reg_pres_print reg_pres_send_json reg_pres_receive_text
  reg_pres_inbox_length inbox_pres_ret inbox_pres_raise inbox_pres_block
  inbox_pres_lift inbox_pres_get inbox_pres_set inbox_pres_print
  inbox_pres_send_json : pres.

Ltac pres :=
  repeat first
    [ progress (cbv beta zeta)
    | apply reg_pres_bind; [ | intro ]
    | apply inbox_pres_bind; [ | intro ]
    | match goal with
      | |- reg_pres (match ?x with _ => _ end) => destruct x
      | |- inbox_pres (match ?x with _ => _ end) => destruct x
      | |- reg_pres (if ?x then _ else _) => destruct x
      | |- inbox_pres (if ?x then _ else _) => destruct x
      end
    | solve [ eauto with pres ] ].

Lemma reg_pres_send_each fuel msg it : reg_pres (send_each fuel msg it).
Proof.
  revert it; induction fuel as [|f IH]; intros it; cbn [send_each]; pres.
Qed.

Lemma inbox_pres_send_each fuel msg it : inbox_pres (send_each fuel msg it).
Proof.
  revert it; induction fuel as [|f IH]; intros it; cbn [send_each]; pres.
Qed.

#[export] Hint Resolve reg_pres_send_each inbox_pres_send_each : pres.

Lemma reg_pres_broadcast : reg_pres broadcast_user_list.
Proof. unfold broadcast_user_list; pres. Qed.

Lemma inbox_pres_broadcast : inbox_pres broadcast_user_list.
Proof. unfold broadcast_user_list; pres. Qed.

Lemma inbox_pres_disconnect id : inbox_pres (disconnect id).
Proof. unfold disconnect; pres. Qed.

Lemma reg_pres_send_personal_message m r : reg_pres (send_personal_message m r).
Proof. unfold send_personal_message; pres. Qed.

Lemma reg_pres_message_get m k : reg_pres (message_get m k).
Proof. unfold message_get; pres. Qed.

Lemma reg_pres_message_setitem m k v : reg_pres (message_setitem m k v).
Proof. unfold message_setitem; pres. Qed.

Lemma inbox_pres_send_personal_message m r : inbox_pres (send_personal_message m r).
Proof. unfold send_personal_message; pres. Qed.

Lemma inbox_pres_message_get m k : inbox_pres (message_get m k).
Proof. unfold message_get; pres. Qed.

Lemma inbox_pres_message_setitem m k v : inbox_pres (message_setitem m k v).
Proof. unfold message_setitem; pres. Qed.

#[export] Hint Resolve reg_pres_broadcast inbox_pres_broadcast inbox_pres_disconnect
  reg_pres_send_personal_message reg_pres_message_get reg_pres_message_setitem
  inbox_pres_send_personal_message inbox_pres_message_get
  inbox_pres_message_setitem : pres.

Lemma reg_pres_loop_iteration loads id : reg_pres (loop_iteration loads id).
Proof. unfold loop_iteration; pres. Qed.

Lemma reg_pres_receive_loop loads fuel id : reg_pres (receive_loop loads fuel id).
Proof.
  induction fuel as [|f IH]; cbn [receive_loop]; pres.
Qed.

(* ------------------------------------------------------------------ *)
(** * The broadcast loop sends to the dict's values in order *)

Lemma entry_from_low (d : dict) : forall i pos,
  pos <= i -> entry_from d i pos = first_entry d i.
Proof.
  induction d as [|e t IH]; intros i pos Hle; cbn; auto.
  replace (Nat.leb pos i) with true by (symmetry; apply Nat.leb_le; lia).
  destruct e as [[k v]|]; auto.
Qed.

Lemma entry_from_skipn (d : dict) : forall i pos,
  i <= pos -> entry_from d i pos = first_entry (skipn (pos - i) d) pos.
Proof.
  induction d as [|e t IH]; intros i pos Hle.
  - cbn. rewrite skipn_nil. reflexivity.
  - destruct (Nat.eq_dec pos i) as [->|Hne].
    + rewrite Nat.sub_diag. cbn [skipn]. apply entry_from_low; lia.
    + cbn [entry_from].
      replace (Nat.leb pos i) with false by (symmetry; apply Nat.leb_gt; lia).
      rewrite IH by lia.
      replace (pos - i) with (S (pos - S i)) by lia. reflexivity.
Qed.

Lemma skipn_S_cons {X} (l t : list X) (x : X) (n : nat) :
  skipn n l = x :: t -> skipn (S n) l = t.
Proof.
  revert l; induction n as [|n IH]; intros [|y l] H; cbn in *; try discriminate.
  - injection H; auto.
  - apply IH; exact H.
Qed.

Lemma send_json_ok_world (w : world) (h : handle) (m : json) :
  socket w h = SendOk ->
  send_json h m w = (ROk tt, mkWorld (registry w) (inbox w)
                                     (outbox w ++ [(h, m)]) (logs w) (socket w)).
Proof. intros H. unfold send_json. rewrite H. reflexivity. Qed.

Lemma send_each_unfold (f : nat) (msg : json) (it : dict_iter) (w : world) :
  send_each (S f) msg it w
  = match iter_next (registry w) it with
    | IterRaise => raise RuntimeError
    | IterEnd => ret tt
    | IterItem connection it' =>
        send_json connection msg;;; send_each f msg it'
    end w.
Proof. reflexivity. Qed.

Lemma send_each_table (d : dict) (msg : json) : forall t pos fuel w,
  skipn pos d = t -> registry w = d -> List.length t < fuel ->
  send_each fuel msg
    {| it_pos := pos; it_used := dict_len d; it_len := List.length (dict_values t) |} w
  = send_all (dict_values t) msg w.
Proof.
  induction t as [|x t IH]; intros pos fuel w Hs Hr Hf;
    (destruct fuel as [|f]; [cbn in Hf; lia|]);
    rewrite send_each_unfold, Hr; unfold iter_next; cbn [it_used it_pos it_len];
    rewrite Nat.eqb_refl; cbn [negb];
    rewrite entry_from_skipn, Nat.sub_0_r, Hs by lia.
  - reflexivity.
  - destruct x as [[k v]|].
    + cbn [first_entry dict_values send_all List.length].
      unfold bind. pose proof (reg_pres_send_json v msg w) as Hp.
      destruct (send_json v msg w) as [[[]|e|] w'] eqn:E; cbn in Hp; auto.
      apply IH; [eapply skipn_S_cons; eauto | congruence | cbn in Hf; lia].
    + cbn [first_entry dict_values].
      rewrite <- (IH (S pos) (S f) w); [ | eapply skipn_S_cons; eauto | auto
                                       | cbn in Hf; lia ].
      rewrite !send_each_unfold, Hr. unfold iter_next; cbn [it_used it_pos it_len].
      rewrite Nat.eqb_refl; cbn [negb].
      rewrite entry_from_skipn, Nat.sub_0_r by lia.
      rewrite (skipn_S_cons _ _ _ _ Hs). reflexivity.
Qed.

Lemma length_dict_values (d : dict) : List.length (dict_values d) = dict_len d.
Proof.
  unfold dict_len. induction d as [|[[k v]|] t IH]; cbn; auto.
Qed.

(** The broadcast computes the user list once and sends it to every value
    of the dict in order, as long as no other task runs in between. *)
Lemma broadcast_user_list_sends (w : world) :
  broadcast_user_list w
  = send_all (dict_values (registry w)) (users_message (dict_keys (registry w))) w.
Proof.
  transitivity (send_each (S (List.length (registry w)))
                  (users_message (dict_keys (registry w)))
                  {| it_pos := 0; it_used := dict_len (registry w);
                     it_len := List.length (dict_values (registry w)) |} w).
  { unfold iter_values. rewrite length_dict_values. reflexivity. }
  apply send_each_table; auto.
Qed.

Lemma send_all_ok (hs : list handle) (msg : json) : forall w,
  (forall x, In x hs -> socket w x = SendOk) ->
  send_all hs msg w
  = (ROk tt, mkWorld (registry w) (inbox w)
                     (outbox w ++ map (fun h => (h, msg)) hs) (logs w) (socket w)).
Proof.
  induction hs as [|h t IH]; intros w Hok; cbn [send_all map].
  - destruct w; cbn. rewrite app_nil_r. reflexivity.
  - unfold bind. rewrite send_json_ok_world by (apply Hok; cbn; auto).
    rewrite IH by (intros x Hx; apply Hok; cbn; auto).
    cbn. rewrite <- app_assoc. reflexivity.
Qed.

Lemma send_all_prefix (pre : list handle) (msg : json) : forall post w,
  (forall x, In x pre -> socket w x = SendOk) ->
  send_all (pre ++ post) msg w
  = send_all post msg (mkWorld (registry w) (inbox w)
                         (outbox w ++ map (fun h => (h, msg)) pre) (logs w) (socket w)).
Proof.
  induction pre as [|h t IH]; intros post w Hok; cbn [send_all map app].
  - destruct w; cbn. rewrite app_nil_r. reflexivity.
  - unfold bind at 1. rewrite send_json_ok_world by (apply Hok; cbn; auto).
    rewrite IH by (intros x Hx; apply Hok; cbn; auto).
    cbn. rewrite <- app_assoc. reflexivity.
Qed.

(* ------------------------------------------------------------------ *)
(** * connect and disconnect on the registry *)

Lemma connect_registry (w : world) (ws : handle) (id : string) :
  registry (snd (connect ws id w)) = dict_setitem (registry w) id ws.
Proof.
  unfold connect. cbv [bind accept ret get_registry set_registry print].
  cbv beta iota.
  rewrite reg_pres_broadcast. reflexivity.
Qed.

Lemma disconnect_run (w : world) (id : string) :
  disconnect id w
  = if dict_contains (registry w) id
    then (ROk tt, mkWorld (dict_delitem (registry w) id) (inbox w) (outbox w)
                          (logs w ++ [LogConnectionClosed id]) (socket w))
    else (ROk tt, w).
Proof.
  unfold disconnect. cbv [bind ret get_registry set_registry print].
  destruct (dict_contains (registry w) id); reflexivity.
Qed.

Lemma disconnect_registry_nodup (w : world) (id : string) :
  NoDup (dict_keys (registry w)) ->
  NoDup (dict_keys (registry (snd (disconnect id w)))).
Proof.
  intros H. rewrite disconnect_run.
  destruct (dict_contains (registry w) id); cbn; auto using dict_keys_delitem_nodup.
Qed.

Lemma disconnect_removes (w : world) (id : string) :
  NoDup (dict_keys (registry w)) ->
  dict_lookup (registry (snd (disconnect id w))) id = None.
Proof.
  intros H. rewrite disconnect_run.
  destruct (dict_contains (registry w) id) eqn:E; cbn.
  - apply dict_lookup_delitem_eq; auto.
  - unfold dict_contains in E. destruct (dict_lookup (registry w) id); congruence.
Qed.

(** C4: the dict holds one entry per client id, and a second [connect]
    with the same id replaces the first entry (last writer wins): the id
    then maps to the second socket and appears exactly once in the user
    list, which is [[A]] when A is the only client.  The invariant that
    keys are distinct is kept by [connect] and by [disconnect]. *)
Theorem connect_last_writer_wins (w : world) (A : string) (h1 h2 : handle)
  (Hnd : NoDup (dict_keys (registry w))) :
  dict_lookup (registry (snd (connect h2 A (snd (connect h1 A w))))) A = Some h2
  /\ count_occ string_dec
       (dict_keys (registry (snd (connect h2 A (snd (connect h1 A w)))))) A = 1
  /\ NoDup (dict_keys (registry (snd (connect h2 A (snd (connect h1 A w))))))
  /\ (registry w = empty_dict ->
      dict_keys (registry (snd (connect h2 A (snd (connect h1 A w))))) = [A])
  /\ (forall (w' : world) (ws : handle) (id : string),
        NoDup (dict_keys (registry w')) ->
        NoDup (dict_keys (registry (snd (connect ws id w'))))
        /\ NoDup (dict_keys (registry (snd (disconnect id w'))))).
Proof.
  rewrite !connect_registry.
  assert (Hnd2 : NoDup (dict_keys (dict_setitem (dict_setitem (registry w) A h1) A h2)))
    by auto using dict_keys_setitem_nodup.
  split; [apply dict_lookup_setitem_eq|].
  split.
  - pose proof (proj1 (NoDup_count_occ' string_dec _) Hnd2 A) as H.
    apply H. apply dict_keys_setitem_has.
  - split; [exact Hnd2|]. split.
    + intros He. rewrite He. cbn. rewrite eqb_refl_string. reflexivity.
    + intros w' ws id Hw'. rewrite connect_registry.
      auto using dict_keys_setitem_nodup, disconnect_registry_nodup.
Qed.

Lemma connect_last_writer_wins_witness :
  NoDup (dict_keys (registry (mkWorld empty_dict [] [] [] (fun _ => SendOk))))
  /\ dict_lookup (registry (snd (connect 2 "A" (snd (connect 1 "A"
        (mkWorld empty_dict [] [] [] (fun _ => SendOk))))))) "A" = Some 2.
Proof.
  assert (H : NoDup (dict_keys (registry (mkWorld empty_dict [] [] [] (fun _ => SendOk)))))
    by (cbn; constructor).
  split; [exact H|].
  exact (proj1 (connect_last_writer_wins
                  (mkWorld empty_dict [] [] [] (fun _ => SendOk)) "A" 1 2 H)).
Defined.

(** C7: [disconnect] never raises; on a present id it deletes the entry,
    on an absent id it changes nothing, and a second call right after the
    first is a no-op. *)
Theorem disconnect_idempotent (w : world) (id : string)
  (Hnd : NoDup (dict_keys (registry w))) :
  fst (disconnect id w) = ROk tt
  /\ dict_lookup (registry (snd (disconnect id w))) id = None
  /\ (dict_contains (registry w) id = false -> disconnect id w = (ROk tt, w))
  /\ disconnect id (snd (disconnect id w)) = (ROk tt, snd (disconnect id w)).
Proof.
  split; [rewrite disconnect_run; destruct (dict_contains _ _); reflexivity|].
  split; [apply disconnect_removes; auto|].
  split; [intros E; rewrite disconnect_run, E; reflexivity|].
  rewrite (disconnect_run (snd (disconnect id w))).
  replace (dict_contains (registry (snd (disconnect id w))) id) with false.
  - reflexivity.
  - unfold dict_contains. rewrite disconnect_removes; auto.
Qed.

Lemma disconnect_idempotent_witness :
  NoDup (dict_keys [Some ("A", 1); Some ("B", 2)])
  /\ disconnect "A" (snd (disconnect "A"
        (mkWorld [Some ("A", 1); Some ("B", 2)] [] [] [] (fun _ => SendOk))))
     = (ROk tt, snd (disconnect "A"
        (mkWorld [Some ("A", 1); Some ("B", 2)] [] [] [] (fun _ => SendOk)))).
Proof.
  assert (H : NoDup (dict_keys [Some ("A", 1); Some ("B", 2)])).
  { cbn. constructor; [cbn; intros [H|[]]; discriminate|].
    constructor; [intros []|constructor]. }
  split; [exact H|].
  exact (proj2 (proj2 (proj2 (disconnect_idempotent
           (mkWorld [Some ("A", 1); Some ("B", 2)] [] [] [] (fun _ => SendOk)) "A" H)))).
Defined.

(** C10: [disconnect id] leaves every other id's entry as it was, and the
    message-handling path (one pass of the receive loop, including
    [send_personal_message]) and the broadcast leave the dict unchanged,
    whatever they raise. *)
Theorem only_connect_disconnect_mutate (w : world) (id k : string) (Hne : k <> id) :
  dict_lookup (registry (snd (disconnect id w))) k = dict_lookup (registry w) k
  /\ (forall loads client_id w',
        registry (snd (loop_iteration loads client_id w')) = registry w')
  /\ (forall m r w', registry (snd (send_personal_message m r w')) = registry w')
  /\ (forall w', registry (snd (broadcast_user_list w')) = registry w').
Proof.
  split.
  - rewrite disconnect_run. destruct (dict_contains (registry w) id); cbn; auto.
    apply dict_lookup_delitem_neq; auto.
  - split; [intros; apply reg_pres_loop_iteration|].
    split; [intros; apply reg_pres_send_personal_message|].
    intros; apply reg_pres_broadcast.
Qed.

Lemma only_connect_disconnect_mutate_witness :
  "B" <> "A"
  /\ dict_lookup (registry (snd (disconnect "A"
        (mkWorld [Some ("A", 1); Some ("B", 2)] [] [] [] (fun _ => SendOk))))) "B"
     = Some 2.
Proof.
  assert (H : "B" <> "A") by discriminate.
  split; [exact H|].
  rewrite (proj1 (only_connect_disconnect_mutate
           (mkWorld [Some ("A", 1); Some ("B", 2)] [] [] [] (fun _ => SendOk)) "A" "B" H)).
  reflexivity.
Defined.

(* ------------------------------------------------------------------ *)
(** * Failure isolation in broadcast_user_list *)

(** Reading of C2 as the spec states it: every registered socket that
    accepts its send receives the user list, whatever the other sockets do. *)
Definition broadcast_isolates_failures (w : world) : Prop :=
  forall h, In h (dict_values (registry w)) -> socket w h = SendOk ->
  In (h, users_message (dict_keys (registry w))) (outbox (snd (broadcast_user_list w))).

(** Two clients A (socket 1) and B (socket 2); the send to A raises. *)
Definition w_first_send_fails : world :=
  mkWorld [Some ("A", 1); Some ("B", 2)] [] [] []
          (fun h => if Nat.eqb h 1 then SendRaise SendFailure else SendOk).

(** C2 (counterexample): when the send to the first client raises, the
    second client, whose socket works, receives nothing. *)
Lemma broadcast_failure_not_isolated :
  ~ (forall w, broadcast_isolates_failures w).
Proof.
  intros H.
  assert (Hin : In (2, users_message (dict_keys (registry w_first_send_fails)))
                   (outbox (snd (broadcast_user_list w_first_send_fails)))).
  { apply H; [cbn; auto | reflexivity]. }
  vm_compute in Hin. exact Hin.
Qed.

(** C2 (as the code does it): the broadcast sends to the sockets one after
    the other in dict order with no timeout.  If the sends to a prefix
    [pre] succeed and the next one raises, the exception propagates out of
    the broadcast, the later sockets receive nothing and the failing client
    stays in the dict; if that send never completes the broadcast stays
    suspended there.  When every send succeeds each socket gets the list. *)
Theorem broadcast_stops_at_failed_send (w : world) (pre post : list handle)
  (h : handle)
  (Hv : dict_values (registry w) = pre ++ h :: post)
  (Hpre : forall x, In x pre -> socket w x = SendOk) :
  (forall e, socket w h = SendRaise e ->
     broadcast_user_list w
     = (RExc e, mkWorld (registry w) (inbox w)
                  (outbox w ++ map (fun x => (x, users_message (dict_keys (registry w)))) pre)
                  (logs w) (socket w)))
  /\ (socket w h = SendHang ->
     broadcast_user_list w
     = (RBlock, mkWorld (registry w) (inbox w)
                  (outbox w ++ map (fun x => (x, users_message (dict_keys (registry w)))) pre)
                  (logs w) (socket w)))
  /\ ((forall x, In x (dict_values (registry w)) -> socket w x = SendOk) ->
     broadcast_user_list w
     = (ROk tt, mkWorld (registry w) (inbox w)
                  (outbox w ++ map (fun x => (x, users_message (dict_keys (registry w))))
                                   (dict_values (registry w)))
                  (logs w) (socket w))).
Proof.
  split; [|split].
  - intros e He. rewrite broadcast_user_list_sends, Hv, send_all_prefix by exact Hpre.
    cbn [send_all]. unfold bind, send_json at 1. cbn [socket]. rewrite He. reflexivity.
  - intros He. rewrite broadcast_user_list_sends, Hv, send_all_prefix by exact Hpre.
    cbn [send_all]. unfold bind, send_json at 1. cbn [socket]. rewrite He. reflexivity.
  - intros Hall. rewrite broadcast_user_list_sends. apply send_all_ok. exact Hall.
Qed.

Lemma broadcast_stops_at_failed_send_witness :
  dict_values (registry w_first_send_fails) = [] ++ 1 :: [2]
  /\ broadcast_user_list w_first_send_fails
     = (RExc SendFailure,
        mkWorld (registry w_first_send_fails) [] [] [] (socket w_first_send_fails)).
Proof.
  assert (Hv : dict_values (registry w_first_send_fails) = [] ++ 1 :: [2])
    by reflexivity.
  split; [exact Hv|].
  exact (proj1 (broadcast_stops_at_failed_send w_first_send_fails [] [2] 1 Hv
                  (fun x Hx => match Hx with end)) SendFailure eq_refl).
Defined.

(* ------------------------------------------------------------------ *)
(** * One pass of the receive loop *)

Lemma obj_get_setitem (fs : list (string * json)) (k q : string) (v : json) :
  obj_get (obj_setitem fs k v) q = if String.eqb q k then Some v else obj_get fs q.
Proof.
  induction fs as [|[k' v'] t IH]; cbn.
  - destruct (String.eqb k q) eqn:E, (String.eqb q k) eqn:E'; auto;
      apply String.eqb_eq in E || apply String.eqb_eq in E'; subst;
      rewrite eqb_refl_string in *; discriminate.
  - destruct (String.eqb k' k) eqn:E; cbn.
    + apply String.eqb_eq in E; subst k'.
      destruct (String.eqb k q) eqn:E1, (String.eqb q k) eqn:E2; auto;
        apply String.eqb_eq in E1 || apply String.eqb_eq in E2; subst;
        rewrite eqb_refl_string in *; discriminate.
    + rewrite IH. destruct (String.eqb q k) eqn:E2; auto.
      apply String.eqb_eq in E2; subst q. rewrite E. reflexivity.
Qed.

Lemma send_personal_message_run (m t : json) (w : world) :
  send_personal_message m t w
  = match json_contains (registry w) t with
    | ROk true =>
        match json_getitem (registry w) t with
        | ROk h => send_json h m w
        | RExc e => (RExc e, w)
        | RBlock => (RBlock, w)
        end
    | ROk false => print (LogRecipientNotFound t) w
    | RExc e => (RExc e, w)
    | RBlock => (RBlock, w)
    end.
Proof.
  unfold send_personal_message. cbv [bind get_registry lift].
  destruct (json_contains (registry w) t) as [[]|e|]; auto;
    destruct (json_getitem (registry w) t); reflexivity.
Qed.

(** A received frame that decodes to a JSON object: the pass reads its
    [target], and forwards it or prints the warning, on the world where the
    frame has been consumed. *)
Lemma loop_iteration_object (loads : string -> option json) (A data : string)
  (fs : list (string * json)) (rest : list frame) (w : world) :
  inbox w = RxText data :: rest -> loads data = Some (JObj fs) ->
  loop_iteration loads A w
  = (if truthy (match obj_get fs "target" with Some v => v | None => JNull end)
     then send_personal_message (JObj (obj_setitem fs "from" (JStr A)))
            (match obj_get fs "target" with Some v => v | None => JNull end)
     else print (LogNoTarget A))
      (mkWorld (registry w) rest (outbox w) (logs w) (socket w)).
Proof.
  intros Hi Hl. unfold loop_iteration, bind at 1, receive_text at 1. rewrite Hi.
  cbv beta iota. rewrite Hl. unfold bind at 1, message_get. cbv beta iota.
  unfold ret at 1. cbv beta iota.
  destruct (truthy _); [|reflexivity].
  unfold bind, message_setitem, ret. reflexivity.
Qed.

Lemma loop_iteration_malformed (loads : string -> option json) (A data : string)
  (rest : list frame) (w : world) :
  inbox w = RxText data :: rest -> loads data = None ->
  loop_iteration loads A w
  = (RExc JSONDecodeError, mkWorld (registry w) rest (outbox w) (logs w) (socket w)).
Proof.
  intros Hi Hl. unfold loop_iteration, bind at 1, receive_text at 1. rewrite Hi.
  cbv beta iota. rewrite Hl. reflexivity.
Qed.

(** After a pass that completes, the session goes on with the next frame. *)
Lemma session_loop_continue (loads : string -> option json) (A : string)
  (f : frame) (w w1 : world) :
  inbox w = f :: inbox w1 -> loop_iteration loads A w = (ROk tt, w1) ->
  session_loop loads A w = session_loop loads A w1.
Proof.
  intros Hi Hit. unfold session_loop, bind at 1, inbox_length at 1.
  unfold bind at 1, inbox_length at 1. cbv beta iota.
  rewrite Hi. cbn [List.length receive_loop].
  unfold try_except at 1, bind at 1. rewrite Hit. reflexivity.
Qed.

(** A pass that raises ends the loop in the matching [except] clause. *)
Lemma session_loop_raise (loads : string -> option json) (A : string)
  (e : exc) (w w1 : world) :
  loop_iteration loads A w = (RExc e, w1) ->
  session_loop loads A w = on_session_error A e w1.
Proof.
  intros Hit. unfold session_loop, bind at 1, inbox_length at 1. cbv beta iota.
  cbn [receive_loop]. unfold try_except at 1, bind at 1. rewrite Hit. reflexivity.
Qed.

(** With no frame left the task stays suspended in [receive_text]. *)
Lemma session_loop_idle (loads : string -> option json) (A : string) (w : world) :
  inbox w = [] -> session_loop loads A w = (RBlock, w).
Proof.
  intros Hi. unfold session_loop, bind at 1, inbox_length at 1. cbv beta iota.
  rewrite Hi. cbn [List.length receive_loop].
  unfold try_except, bind at 1, loop_iteration, bind at 1, receive_text at 1.
  rewrite Hi. reflexivity.
Qed.

Lemma on_session_error_registry (A : string) (e : exc) (w : world) :
  registry (snd (on_session_error A e w)) = registry (snd (disconnect A w)).
Proof.
  rewrite disconnect_run.
  destruct e; unfold on_session_error; cbv [bind print];
    rewrite disconnect_run; cbn [registry];
    destruct (dict_contains _ A); cbv beta iota;
    rewrite reg_pres_broadcast; reflexivity.
Qed.

(* ------------------------------------------------------------------ *)
(** * Malformed messages *)

(** Reading of C1 as the spec states it: a registered client's session
    that receives a frame json.loads rejects keeps looping and the client
    stays registered. *)
Definition malformed_message_tolerated : Prop :=
  forall loads w A data,
  loads data = None -> inbox w = [RxText data] ->
  dict_contains (registry w) A = true ->
  fst (session_loop loads A w) = RBlock
  /\ dict_contains (registry (snd (session_loop loads A w))) A = true.

Definition w_malformed : world :=
  mkWorld [Some ("A", 1)] [RxText "{"] [] [] (fun _ => SendOk).

(** C1 (counterexample): client A receives the text ["{"], which does not
    decode; the loop ends and A is no longer registered. *)
Lemma malformed_message_not_tolerated : ~ malformed_message_tolerated.
Proof.
  intros H.
  destruct (H (fun _ => None) w_malformed "A" "{" eq_refl eq_refl eq_refl) as [H1 _].
  vm_compute in H1. discriminate.
Qed.

(** C1 (as the code does it): the [try] block encloses the whole
    [while True] loop, so the JSONDecodeError of a frame that does not
    decode leaves the loop for the [except Exception] clause: the error is
    printed, the client is removed from the dict, the user list is
    broadcast, and the frames after it are never read. *)
Theorem malformed_message_ends_session (loads : string -> option json)
  (w : world) (A data : string) (rest : list frame)
  (Hi : inbox w = RxText data :: rest) (Hl : loads data = None)
  (Hnd : NoDup (dict_keys (registry w))) :
  session_loop loads A w
  = on_session_error A JSONDecodeError
      (mkWorld (registry w) rest (outbox w) (logs w) (socket w))
  /\ dict_lookup (registry (snd (session_loop loads A w))) A = None.
Proof.
  assert (Hs : session_loop loads A w
               = on_session_error A JSONDecodeError
                   (mkWorld (registry w) rest (outbox w) (logs w) (socket w))).
  { apply session_loop_raise. apply (loop_iteration_malformed loads A data); auto. }
  split; [exact Hs|].
  rewrite Hs, on_session_error_registry. apply disconnect_removes. exact Hnd.
Qed.

Lemma malformed_message_ends_session_witness :
  inbox w_malformed = RxText "{" :: []
  /\ dict_lookup (registry (snd (session_loop (fun _ => None) "A" w_malformed))) "A"
     = None.
Proof.
  assert (Hi : inbox w_malformed = RxText "{" :: []) by reflexivity.
  split; [exact Hi|].
  refine (proj2 (malformed_message_ends_session (fun _ => None) w_malformed "A" "{" []
                   Hi eq_refl _)).
  cbn. constructor; [intros []|constructor].
Defined.

(* ------------------------------------------------------------------ *)
(** * Routing a directed message *)

(** C5: when the frame decodes to an object whose [target] is the id B of
    a registered client (ids are never empty: the route [/ws/{client_id}]
    matches one or more characters), one pass of the loop sends exactly
    one message, to B's socket: the received object with its ["from"]
    field set to the sender's id and every other field unchanged.  The
    dict is untouched and the loop goes on with the next frame. *)
Theorem route_delivers_to_target (loads : string -> option json) (w : world)
  (A B data : string) (hB : handle) (fs : list (string * json)) (rest : list frame)
  (Hi : inbox w = RxText data :: rest) (Hl : loads data = Some (JObj fs))
  (Ht : obj_get fs "target" = Some (JStr B)) (HB : B <> "")
  (Hreg : dict_lookup (registry w) B = Some hB) (Hok : socket w hB = SendOk) :
  exists fs',
    loop_iteration loads A w
    = (ROk tt, mkWorld (registry w) rest (outbox w ++ [(hB, JObj fs')])
                       (logs w) (socket w))
    /\ (forall k, obj_get fs' k
                  = if String.eqb k "from" then Some (JStr A) else obj_get fs k)
    /\ session_loop loads A w
       = session_loop loads A (mkWorld (registry w) rest
                                 (outbox w ++ [(hB, JObj fs')]) (logs w) (socket w)).
Proof.
  exists (obj_setitem fs "from" (JStr A)).
  assert (Hrun : loop_iteration loads A w
                 = (ROk tt, mkWorld (registry w) rest
                              (outbox w ++ [(hB, JObj (obj_setitem fs "from" (JStr A)))])
                              (logs w) (socket w))).
  { rewrite (loop_iteration_object loads A data fs rest w Hi Hl), Ht.
    replace (truthy (JStr B)) with true.
    - rewrite send_personal_message_run. cbn [registry json_contains json_getitem].
      unfold dict_contains. rewrite Hreg.
      apply send_json_ok_world. exact Hok.
    - cbn. destruct (String.eqb B "") eqn:E; [|reflexivity].
      apply String.eqb_eq in E. contradiction. }
  split; [exact Hrun|]. split.
  - intros k. apply obj_get_setitem.
  - eapply session_loop_continue; [|exact Hrun]. rewrite Hi. reflexivity.
Qed.

Definition loads_route (s : string) : option json :=
  if String.eqb s "offer"
  then Some (JObj [("target", JStr "B"); ("from", JStr "X"); ("sdp", JStr "v=0")])
  else None.

Definition w_route : world :=
  mkWorld [Some ("A", 1); Some ("B", 2)] [RxText "offer"] [] [] (fun _ => SendOk).

Lemma route_delivers_to_target_witness :
  dict_lookup (registry w_route) "B" = Some 2
  /\ exists fs',
       loop_iteration loads_route "A" w_route
       = (ROk tt, mkWorld (registry w_route) [] [(2, JObj fs')] [] (socket w_route)).
Proof.
  assert (Hreg : dict_lookup (registry w_route) "B" = Some 2) by reflexivity.
  split; [exact Hreg|].
  destruct (route_delivers_to_target loads_route w_route "A" "B" "offer" 2
              [("target", JStr "B"); ("from", JStr "X"); ("sdp", JStr "v=0")] []
              eq_refl eq_refl eq_refl ltac:(discriminate) Hreg eq_refl)
    as [fs' [Hrun _]].
  exists fs'. exact Hrun.
Defined.

(* ------------------------------------------------------------------ *)
(** * Targets that are not registered, and messages without a target *)

(** Whether a [target] value names a registered client. *)
Definition target_registered (d : dict) (t : json) : bool :=
  match t with
  | JStr s => dict_contains d s
  | _ => false
  end.

(** Python can hash every JSON value except a list or a dict. *)
Definition hashable (t : json) : bool :=
  match t with
  | JArr _ | JObj _ => false
  | _ => true
  end.

(** Reading of C6 as the spec states it: whatever the value of an
    unregistered [target], the pass sends nothing and the session keeps
    looping. *)
Definition unregistered_target_tolerated : Prop :=
  forall loads w A data fs t,
  loads data = Some (JObj fs) -> obj_get fs "target" = Some t ->
  target_registered (registry w) t = false -> inbox w = [RxText data] ->
  fst (session_loop loads A w) = RBlock
  /\ outbox (snd (session_loop loads A w)) = outbox w.

Definition loads_list_target (s : string) : option json :=
  Some (JObj [("target", JArr [JStr "B"])]).

Definition w_list_target : world :=
  mkWorld [Some ("A", 1)] [RxText "m"] [] [] (fun _ => SendOk).

(** C6 (counterexample): the message [{"target": ["B"]}] names no
    registered client, yet the membership test raises TypeError and A's
    session ends. *)
Lemma list_target_ends_session : ~ unregistered_target_tolerated.
Proof.
  intros H.
  destruct (H loads_list_target w_list_target "A" "m" [("target", JArr [JStr "B"])]
              (JArr [JStr "B"]) eq_refl eq_refl eq_refl eq_refl) as [H1 _].
  vm_compute in H1. discriminate.
Qed.

(** C6 (as the code does it): for a target that is a str, number, bool or
    null and not a registered id, the pass sends nothing to anyone (nor
    back to the sender), leaves the dict as it is, prints one line (the
    recipient-not-found line when the value is truthy, the no-target
    warning otherwise) and the loop goes on.  A non-empty list or dict as
    target makes [recipient_id in self.active_connections] raise TypeError,
    which ends the session through the [except Exception] clause. *)
Theorem unregistered_target_dropped (loads : string -> option json) (w : world)
  (A data : string) (fs : list (string * json)) (t : json) (rest : list frame)
  (Hi : inbox w = RxText data :: rest) (Hl : loads data = Some (JObj fs))
  (Ht : obj_get fs "target" = Some t)
  (Hnr : target_registered (registry w) t = false) :
  (hashable t = true ->
   loop_iteration loads A w
   = (ROk tt, mkWorld (registry w) rest (outbox w)
                (logs w ++ [if truthy t then LogRecipientNotFound t else LogNoTarget A])
                (socket w))
   /\ session_loop loads A w
      = session_loop loads A
          (mkWorld (registry w) rest (outbox w)
             (logs w ++ [if truthy t then LogRecipientNotFound t else LogNoTarget A])
             (socket w)))
  /\ (hashable t = false -> truthy t = true ->
      session_loop loads A w
      = on_session_error A TypeError
          (mkWorld (registry w) rest (outbox w) (logs w) (socket w))).
Proof.
  split.
  - intros Hh.
    assert (Hrun : loop_iteration loads A w
                   = (ROk tt, mkWorld (registry w) rest (outbox w)
                        (logs w ++ [if truthy t then LogRecipientNotFound t
                                    else LogNoTarget A]) (socket w))).
    { rewrite (loop_iteration_object loads A data fs rest w Hi Hl), Ht.
      destruct (truthy t) eqn:Et; [|reflexivity].
      rewrite send_personal_message_run. cbn [registry].
      assert (Hc : json_contains (registry w) t = ROk false).
      { destruct t; cbn in Hh, Hnr |- *; try discriminate; try reflexivity.
        rewrite Hnr. reflexivity. }
      rewrite Hc. reflexivity. }
    split; [exact Hrun|].
    eapply session_loop_continue; [|exact Hrun]. rewrite Hi. reflexivity.
  - intros Hh Htr. apply session_loop_raise.
    rewrite (loop_iteration_object loads A data fs rest w Hi Hl), Ht, Htr.
    rewrite send_personal_message_run. cbn [registry].
    destruct t; cbn in Hh; try discriminate; reflexivity.
Qed.

Definition loads_unknown_target (s : string) : option json :=
  Some (JObj [("target", JStr "Z"); ("sdp", JStr "v=0")]).

Definition w_unknown_target : world :=
  mkWorld [Some ("A", 1)] [RxText "m"] [] [] (fun _ => SendOk).

Lemma unregistered_target_dropped_witness :
  target_registered (registry w_unknown_target) (JStr "Z") = false
  /\ loop_iteration loads_unknown_target "A" w_unknown_target
     = (ROk tt, mkWorld [Some ("A", 1)] [] [] [LogRecipientNotFound (JStr "Z")]
                        (socket w_unknown_target)).
Proof.
  assert (Hnr : target_registered (registry w_unknown_target) (JStr "Z") = false)
    by reflexivity.
  split; [exact Hnr|].
  exact (proj1 (proj1 (unregistered_target_dropped loads_unknown_target w_unknown_target
                         "A" "m" [("target", JStr "Z"); ("sdp", JStr "v=0")] (JStr "Z") []
                         eq_refl eq_refl eq_refl Hnr) eq_refl)).
Defined.

(** C8: a frame that decodes to an object with no [target] field sends
    nothing to anyone and only prints the no-target warning; the dict is
    untouched and the loop goes on. *)
Theorem missing_target_only_warns (loads : string -> option json) (w : world)
  (A data : string) (fs : list (string * json)) (rest : list frame)
  (Hi : inbox w = RxText data :: rest) (Hl : loads data = Some (JObj fs))
  (Ht : obj_get fs "target" = None) :
  loop_iteration loads A w
  = (ROk tt, mkWorld (registry w) rest (outbox w) (logs w ++ [LogNoTarget A]) (socket w))
  /\ session_loop loads A w
     = session_loop loads A
         (mkWorld (registry w) rest (outbox w) (logs w ++ [LogNoTarget A]) (socket w)).
Proof.
  assert (Hrun : loop_iteration loads A w
                 = (ROk tt, mkWorld (registry w) rest (outbox w)
                              (logs w ++ [LogNoTarget A]) (socket w))).
  { rewrite (loop_iteration_object loads A data fs rest w Hi Hl), Ht. reflexivity. }
  split; [exact Hrun|].
  eapply session_loop_continue; [|exact Hrun]. rewrite Hi. reflexivity.
Qed.

Definition loads_no_target (s : string) : option json :=
  Some (JObj [("payload", JStr "x")]).

Lemma missing_target_only_warns_witness :
  obj_get [("payload", JStr "x")] "target" = None
  /\ loop_iteration loads_no_target "A" w_unknown_target
     = (ROk tt, mkWorld [Some ("A", 1)] [] [] [LogNoTarget "A"]
                        (socket w_unknown_target)).
Proof.
  assert (Ht : obj_get [("payload", JStr "x")] "target" = None) by reflexivity.
  split; [exact Ht|].
  exact (proj1 (missing_target_only_warns loads_no_target w_unknown_target "A" "m"
                  [("payload", JStr "x")] [] eq_refl eq_refl Ht)).
Defined.

(* ------------------------------------------------------------------ *)
(** * Removal before the membership broadcast *)

(** When the receive loop ends, whatever the exception, the handler
    removes the client before reading the dict for the user list: with
    working sockets, every remaining client receives the list of the dict
    after the removal, which does not contain the client. *)
Lemma on_session_error_broadcasts_after_removal (A : string) (e : exc) (w : world)
  (Hnd : NoDup (dict_keys (registry w))) (Hok : forall h, socket w h = SendOk) :
  fst (on_session_error A e w) = ROk tt
  /\ ~ In A (dict_keys (registry (snd (on_session_error A e w))))
  /\ outbox (snd (on_session_error A e w))
     = outbox w ++ map (fun h => (h, users_message
                                      (dict_keys (registry (snd (disconnect A w))))))
                       (dict_values (registry (snd (disconnect A w)))).
Proof.
  assert (Hrm := disconnect_removes w A Hnd).
  apply dict_lookup_in_keys in Hrm.
  rewrite disconnect_run in Hrm |- *.
  destruct e; unfold on_session_error; cbv [bind print]; rewrite disconnect_run;
    cbn [registry logs inbox outbox socket];
    destruct (dict_contains (registry w) A); cbv beta iota;
    rewrite broadcast_user_list_sends, send_all_ok by (intros; apply Hok);
    cbn; auto.
Qed.

(** A client D (socket 2) whose peer is gone: sending to it raises. *)
Definition w_dead_peer : world :=
  mkWorld [Some ("D", 2)] [RxText "hi"] [] []
          (fun h => if Nat.eqb h 2 then SendRaise SendFailure else SendOk).

(** C3 (failing input): client C connects on socket 1 while D's socket
    fails.  The broadcast inside [connect], which runs before the [try],
    raises; websocket_endpoint ends with that exception, C is still in
    the dict and no membership broadcast follows. *)
Theorem connect_failure_leaves_client_registered (loads : string -> option json) :
  websocket_endpoint loads 1 "C" w_dead_peer
  = (RExc SendFailure,
     mkWorld [Some ("D", 2); Some ("C", 1)] [RxText "hi"] [] [LogNewConnection "C"]
             (socket w_dead_peer)).
Proof. reflexivity. Qed.

(* ------------------------------------------------------------------ *)
(** * Interleaving with other tasks during a broadcast *)

(** Scheduling model: the event loop runs one task at a time and switches
    only at an [await].  While the broadcast's task is suspended in a send,
    other tasks may run; each element of [others] is the synchronous dict
    update one of them makes in such a window ([connect]'s insert or
    [disconnect]'s delete), applied once the send has completed. *)
Fixpoint send_each_interleaved (fuel : nat) (message : json) (it : dict_iter)
  (others : list (dict -> dict)) : M unit :=
  match fuel with
  | O => ret tt
  | S f =>
      d <- get_registry;;
      match iter_next d it with
      | IterRaise => raise RuntimeError
      | IterEnd => ret tt
      | IterItem connection it' =>
          send_json connection message;;;
          match others with
          | [] => send_each_interleaved f message it' []
          | u :: rest =>
              d' <- get_registry;;
              set_registry (u d');;;
              send_each_interleaved f message it' rest
          end
      end
  end.

Definition broadcast_interleaved (others : list (dict -> dict)) : M unit :=
  d <- get_registry;;
  let user_list := dict_keys d in
  let message := users_message user_list in
  send_each_interleaved (S (List.length d + List.length others)) message
                        (iter_values d) others.

Lemma send_each_interleaved_alone (fuel : nat) (msg : json) : forall it w,
  send_each_interleaved fuel msg it [] w = send_each fuel msg it w.
Proof.
  induction fuel as [|f IH]; intros it w; [reflexivity|].
  cbn [send_each_interleaved send_each]. unfold bind at 1 3, get_registry.
  destruct (iter_next (registry w) it); try reflexivity.
  unfold bind. destruct (send_json h msg w) as [[[]|e|] w']; auto.
Qed.

Lemma broadcast_interleaved_alone (w : world) :
  broadcast_interleaved [] w = broadcast_user_list w.
Proof.
  unfold broadcast_interleaved, broadcast_user_list, bind at 1 2, get_registry.
  cbv beta zeta. cbn [List.length]. rewrite Nat.add_0_r.
  apply send_each_interleaved_alone.
Qed.

Lemma first_entry_values (d : dict) : forall i h t,
  dict_values d = h :: t -> exists j, first_entry d i = Some (j, h).
Proof.
  induction d as [|[[k v]|] d IH]; intros i h t Hv; cbn in Hv |- *.
  - discriminate.
  - injection Hv as <- _. eauto.
  - eapply IH; eauto.
Qed.

(** The registry history a broadcast goes through. *)
Fixpoint reg_history (d : dict) (others : list (dict -> dict)) : list dict :=
  d :: match others with
       | [] => []
       | u :: rest => reg_history (u d) rest
       end.

(** What an atomic broadcast at registry [d] would send. *)
Definition atomic_sends (d : dict) : list (handle * json) :=
  map (fun h => (h, users_message (dict_keys d))) (dict_values d).

(** Reading of C9 as the spec states it: register followed by snapshot
    shows the id, unregister followed by lookup shows it absent, and a
    broadcast overlapping other tasks' updates, with working sockets,
    completes and sends what an atomic broadcast at one of the registry
    states it overlapped would send. *)
Definition registry_linearizable : Prop :=
  (forall w ws id, In id (dict_keys (registry (snd (connect ws id w)))))
  /\ (forall w id, NoDup (dict_keys (registry w)) ->
        dict_lookup (registry (snd (disconnect id w))) id = None)
  /\ (forall w others, (forall h, socket w h = SendOk) ->
        fst (broadcast_interleaved others w) = ROk tt
        /\ exists d, In d (reg_history (registry w) others)
             /\ outbox (snd (broadcast_interleaved others w)) = outbox w ++ atomic_sends d).

Definition w_two_clients : world :=
  mkWorld [Some ("A", 1); Some ("B", 2)] [] [] [] (fun _ => SendOk).

(** C9 (counterexample): a broadcast to A and B; while it awaits the send
    to A, client E connects.  The next step of the dict iteration raises
    RuntimeError and B never receives the list. *)
Lemma broadcast_not_linearizable : ~ registry_linearizable.
Proof.
  intros [_ [_ H]].
  destruct (H w_two_clients [fun d => dict_setitem d "E" 3] (fun _ => eq_refl))
    as [H1 _].
  vm_compute in H1. discriminate.
Qed.

Lemma send_each_interleaved_unfold (f : nat) (msg : json) (it : dict_iter)
  (others : list (dict -> dict)) (w : world) :
  send_each_interleaved (S f) msg it others w
  = match iter_next (registry w) it with
    | IterRaise => raise RuntimeError
    | IterEnd => ret tt
    | IterItem connection it' =>
        send_json connection msg;;;
        match others with
        | [] => send_each_interleaved f msg it' []
        | u :: rest =>
            d' <- get_registry;;
            set_registry (u d');;;
            send_each_interleaved f msg it' rest
        end
    end w.
Proof. reflexivity. Qed.

Lemma first_entry_split (t : dict) : forall pos h post,
  dict_values t = h :: post ->
  exists j, first_entry t pos = Some (j, h) /\ pos <= j
            /\ dict_values (skipn (S j - pos) t) = post.
Proof.
  induction t as [|[[k v]|] t IH]; intros pos h post Hv; cbn in Hv.
  - discriminate.
  - injection Hv as <- <-. exists pos. cbn [first_entry].
    replace (S pos - pos) with 1 by lia. auto.
  - destruct (IH (S pos) h post Hv) as [j [Hj [Hle Hs]]].
    exists j. cbn [first_entry]. split; [exact Hj|]. split; [lia|].
    replace (S j - pos) with (S (S j - S pos)) by lia. exact Hs.
Qed.

(** One step of the values iterator over an unchanged dict: it yields the
    next value and expects one value fewer. *)
Lemma iter_next_step (d : dict) (pos : nat) (h : handle) (post : list handle) :
  dict_values (skipn pos d) = h :: post ->
  exists pos',
    iter_next d {| it_pos := pos; it_used := dict_len d; it_len := S (List.length post) |}
    = IterItem h {| it_pos := pos'; it_used := dict_len d; it_len := List.length post |}
    /\ dict_values (skipn pos' d) = post.
Proof.
  intros Hv.
  destruct (first_entry_split (skipn pos d) pos h post Hv) as [j [Hj [Hle Hs]]].
  exists (S j). split.
  - unfold iter_next. cbn [it_used it_pos it_len]. rewrite Nat.eqb_refl. cbn [negb].
    rewrite entry_from_skipn, Nat.sub_0_r, Hj by lia. reflexivity.
  - rewrite skipn_skipn in Hs. replace (S j - pos + pos) with (S j) in Hs by lia.
    exact Hs.
Qed.

(** While the other tasks leave the dict as it is, the interleaved
    broadcast sends to the next values in order. *)
Lemma send_each_interleaved_idle (msg : json) :
  forall pre post pos fuel others w,
  dict_values (skipn pos (registry w)) = pre ++ post ->
  (forall x, In x pre -> socket w x = SendOk) ->
  exists pos',
    dict_values (skipn pos' (registry w)) = post
    /\ send_each_interleaved (List.length pre + fuel) msg
         {| it_pos := pos; it_used := dict_len (registry w);
            it_len := List.length (pre ++ post) |}
         (repeat (fun d => d) (List.length pre) ++ others) w
       = send_each_interleaved fuel msg
           {| it_pos := pos'; it_used := dict_len (registry w);
              it_len := List.length post |}
           others
           (mkWorld (registry w) (inbox w)
                    (outbox w ++ map (fun x => (x, msg)) pre) (logs w) (socket w)).
Proof.
  induction pre as [|x pre IH]; intros post pos fuel others w Hv Hok.
  - exists pos. split; [exact Hv|]. destruct w; cbn. rewrite app_nil_r. reflexivity.
  - cbn [app] in Hv.
    destruct (iter_next_step (registry w) pos x (pre ++ post) Hv) as [p1 [Hn Hs]].
    change (List.length (x :: pre) + fuel) with (S (List.length pre + fuel)).
    change (List.length ((x :: pre) ++ post)) with (S (List.length (pre ++ post))).
    rewrite send_each_interleaved_unfold, Hn.
    unfold bind at 1. rewrite send_json_ok_world by (apply Hok; cbn; auto).
    cbn [repeat List.length app].
    cbv [bind get_registry set_registry]. cbv beta iota.
    cbn [registry inbox outbox logs socket].
    destruct (IH post p1 fuel others
                (mkWorld (registry w) (inbox w) (outbox w ++ [(x, msg)]) (logs w) (socket w)))
      as [p2 [Hs2 Heq]]; cbn [registry socket]; auto.
    { intros y Hy. apply Hok. cbn; auto. }
    exists p2. split; [exact Hs2|].
    cbn [registry inbox outbox logs socket] in Heq. rewrite Heq.
    rewrite <- app_assoc. reflexivity.
Qed.

(** C9 (as the code does it): the dict insert of [connect], [disconnect]
    and the reads of the dict contain no [await], so each runs without
    interruption on the event loop: after [connect] the id is among the
    keys, after [disconnect] a lookup of the id finds nothing.  The
    broadcast alone is the sequential broadcast, but it awaits each send
    while iterating the live dict: if another task changes the size of the
    dict (inserts a new key or deletes a present one) while the broadcast
    awaits its send number [k] (counted from 0, the other tasks leaving
    the dict unchanged during the earlier sends), the broadcast raises
    RuntimeError right after that send, having delivered the list to the
    first [k + 1] sockets only. *)
Theorem registry_ops_atomic_broadcast_interleaves :
  (forall w ws id, In id (dict_keys (registry (snd (connect ws id w)))))
  /\ (forall w id, NoDup (dict_keys (registry w)) ->
        dict_lookup (registry (snd (disconnect id w))) id = None)
  /\ (forall w, broadcast_interleaved [] w = broadcast_user_list w)
  /\ (forall w k u rest pre h post,
        dict_values (registry w) = pre ++ h :: post -> List.length pre = k ->
        (forall x, In x (pre ++ [h]) -> socket w x = SendOk) ->
        dict_len (u (registry w)) <> dict_len (registry w) ->
        broadcast_interleaved (repeat (fun d => d) k ++ u :: rest) w
        = (RExc RuntimeError,
           mkWorld (u (registry w)) (inbox w)
                   (outbox w ++ map (fun x => (x, users_message (dict_keys (registry w))))
                                    (pre ++ [h]))
                   (logs w) (socket w))).
Proof.
  split; [intros w ws id; rewrite connect_registry; apply dict_keys_setitem_has|].
  split; [intros w id Hnd; apply disconnect_removes; exact Hnd|].
  split; [exact broadcast_interleaved_alone|].
  intros w k u rest pre h post Hv Hk Hok Hlen. subst k.
  set (msg := users_message (dict_keys (registry w))).
  assert (Hl : dict_len (registry w) = List.length (pre ++ h :: post))
    by (rewrite <- length_dict_values, Hv; reflexivity).
  unfold broadcast_interleaved, bind at 1, get_registry at 1. cbv beta zeta.
  fold msg.
  replace (iter_values (registry w))
    with {| it_pos := 0; it_used := dict_len (registry w);
            it_len := List.length (pre ++ h :: post) |}
    by (unfold iter_values; f_equal; congruence).
  rewrite length_app, repeat_length.
  replace (S (List.length (registry w) + (List.length pre + List.length (u :: rest))))
    with (List.length pre + S (S (List.length (registry w) + List.length rest)))
    by (cbn [List.length]; lia).
  destruct (send_each_interleaved_idle msg pre (h :: post) 0
              (S (S (List.length (registry w) + List.length rest))) (u :: rest) w Hv)
    as [p1 [Hs1 Heq]].
  { intros x Hx. apply Hok. apply in_or_app. auto. }
  rewrite Heq.
  destruct (iter_next_step (registry w) p1 h post Hs1) as [p2 [Hn _]].
  change (List.length (h :: post)) with (S (List.length post)).
  rewrite send_each_interleaved_unfold. cbn [registry]. rewrite Hn.
  unfold bind at 1. rewrite send_json_ok_world
    by (cbn [socket]; apply Hok; apply in_or_app; cbn; auto).
  cbv [bind get_registry set_registry]. cbv beta iota.
  cbn [registry inbox outbox logs socket].
  rewrite send_each_interleaved_unfold. cbn [registry].
  unfold iter_next at 1. cbn [it_used]. apply Nat.eqb_neq in Hlen. rewrite Hlen.
  cbn. rewrite map_app, app_assoc. reflexivity.
Qed.

Lemma registry_ops_atomic_broadcast_interleaves_witness :
  dict_values (registry w_two_clients) = [1] ++ 2 :: []
  /\ List.length [1] = 1
  /\ (forall x, In x ([1] ++ [2]) -> socket w_two_clients x = SendOk)
  /\ dict_len (dict_setitem (registry w_two_clients) "E" 3) <> dict_len (registry w_two_clients)
  /\ broadcast_interleaved (repeat (fun d => d) 1 ++ [fun d => dict_setitem d "E" 3])
                           w_two_clients
     = (RExc RuntimeError,
        mkWorld [Some ("A", 1); Some ("B", 2); Some ("E", 3)] []
                (map (fun x => (x, users_message ["A"; "B"])) ([1] ++ [2]))
                [] (socket w_two_clients)).
Proof.
  assert (Hv : dict_values (registry w_two_clients) = [1] ++ 2 :: []) by reflexivity.
  assert (Hk : List.length [1] = 1) by reflexivity.
  assert (Hok : forall x, In x ([1] ++ [2]) -> socket w_two_clients x = SendOk)
    by (intros; reflexivity).
  assert (Hlen : dict_len (dict_setitem (registry w_two_clients) "E" 3)
                 <> dict_len (registry w_two_clients)) by (vm_compute; discriminate).
  split; [exact Hv|]. split; [exact Hk|]. split; [exact Hok|]. split; [exact Hlen|].
  exact (proj2 (proj2 (proj2 registry_ops_atomic_broadcast_interleaves))
           w_two_clients 1 (fun d => dict_setitem d "E" 3) [] [1] 2 [] Hv Hk Hok Hlen).
Defined.

Lemma websocket_endpoint_session (loads : string -> option json) (ws : handle)
  (client_id : string) (w : world) :
  websocket_endpoint loads ws client_id w
  = (connect ws client_id;;; session_loop loads client_id) w.
Proof. reflexivity. Qed.

(* ------------------------------------------------------------------ *)
(** * Further behaviour of main.py *)

Lemma dict_keys_delitem_setitem_new (d : dict) (k : string) (v : handle) :
  ~ In k (dict_keys d) -> dict_keys (dict_delitem (dict_setitem d k v) k) = dict_keys d.
Proof.
  induction d as [|[[k0 v0]|] t IH]; cbn; intros Hn.
  - rewrite eqb_refl_string. reflexivity.
  - destruct (String.eqb k0 k) eqn:E.
    + apply String.eqb_eq in E; subst. exfalso; auto.
    + cbn. rewrite E. cbn. f_equal. apply IH. auto.
  - apply IH; auto.
Qed.

Lemma dict_contains_setitem (d : dict) (k : string) (v : handle) :
  dict_contains (dict_setitem d k v) k = true.
Proof. unfold dict_contains. rewrite dict_lookup_setitem_eq. reflexivity. Qed.

(** [connect] with every socket working: the id is inserted, the line is
    printed, and every socket of the updated dict receives the new list. *)
Lemma connect_run (w : world) (ws : handle) (id : string)
  (Hok : forall h, socket w h = SendOk) :
  connect ws id w
  = (ROk tt, mkWorld (dict_setitem (registry w) id ws) (inbox w)
               (outbox w ++ atomic_sends (dict_setitem (registry w) id ws))
               (logs w ++ [LogNewConnection id]) (socket w)).
Proof.
  unfold connect. cbv [bind accept ret get_registry set_registry print].
  cbv beta iota. rewrite broadcast_user_list_sends, send_all_ok by (intros; apply Hok).
  reflexivity.
Qed.

Lemma loop_iteration_close (loads : string -> option json) (A : string)
  (rest : list frame) (w : world) :
  inbox w = RxClose :: rest ->
  loop_iteration loads A w
  = (RExc WebSocketDisconnect, mkWorld (registry w) rest (outbox w) (logs w) (socket w)).
Proof.
  intros Hi. unfold loop_iteration, bind at 1, receive_text at 1. rewrite Hi.
  reflexivity.
Qed.

Lemma loop_iteration_forward (loads : string -> option json) (w : world)
  (A B data : string) (hB : handle) (fs : list (string * json)) (rest : list frame) :
  inbox w = RxText data :: rest -> loads data = Some (JObj fs) ->
  obj_get fs "target" = Some (JStr B) -> B <> "" ->
  dict_lookup (registry w) B = Some hB ->
  loop_iteration loads A w
  = send_json hB (JObj (obj_setitem fs "from" (JStr A)))
      (mkWorld (registry w) rest (outbox w) (logs w) (socket w)).
Proof.
  intros Hi Hl Ht HB Hreg.
  rewrite (loop_iteration_object loads A data fs rest w Hi Hl), Ht.
  replace (truthy (JStr B)) with true.
  - rewrite send_personal_message_run. cbn [registry json_contains json_getitem].
    unfold dict_contains. rewrite Hreg. reflexivity.
  - cbn. destruct (String.eqb B "") eqn:E; [|reflexivity].
    apply String.eqb_eq in E. contradiction.
Qed.

(** Dict order of the user list: a new id is appended at the end of the
    list, a reconnecting id that is still registered keeps its place. *)
Theorem connect_user_list_order (w : world) (ws : handle) (id : string) :
  (In id (dict_keys (registry w)) ->
   dict_keys (registry (snd (connect ws id w))) = dict_keys (registry w))
  /\ (~ In id (dict_keys (registry w)) ->
      dict_keys (registry (snd (connect ws id w))) = dict_keys (registry w) ++ [id]).
Proof.
  rewrite connect_registry. split.
  - apply dict_keys_setitem_in.
  - apply dict_keys_setitem_notin.
Qed.

Lemma connect_user_list_order_witness :
  ~ In "C" (dict_keys (registry w_two_clients))
  /\ dict_keys (registry (snd (connect 3 "C" w_two_clients))) = ["A"; "B"; "C"].
Proof.
  assert (Hn : ~ In "C" (dict_keys (registry w_two_clients)))
    by (cbn; intros [H|[H|[]]]; discriminate).
  split; [exact Hn|].
  exact (proj2 (connect_user_list_order w_two_clients 3 "C") Hn).
Defined.

(** A client that connects and whose peer then closes, all sockets
    working: the endpoint returns normally; every socket, the newcomer's
    included, got the list with the newcomer, then the remaining sockets
    got the list without it; the user list is back to what it was. *)
Theorem endpoint_connect_then_close (loads : string -> option json) (w : world)
  (ws : handle) (C : string) (rest : list frame)
  (Hok : forall h, socket w h = SendOk) (Hnew : ~ In C (dict_keys (registry w)))
  (Hi : inbox w = RxClose :: rest) :
  websocket_endpoint loads ws C w
  = (ROk tt,
     mkWorld (dict_delitem (dict_setitem (registry w) C ws) C) rest
       (outbox w ++ atomic_sends (dict_setitem (registry w) C ws)
                 ++ atomic_sends (dict_delitem (dict_setitem (registry w) C ws) C))
       (logs w ++ [LogNewConnection C; LogConnectionClosed C]) (socket w))
  /\ dict_keys (dict_delitem (dict_setitem (registry w) C ws) C) = dict_keys (registry w).
Proof.
  split; [|apply dict_keys_delitem_setitem_new; exact Hnew].
  rewrite websocket_endpoint_session. unfold bind at 1. rewrite connect_run by exact Hok.
  cbv beta iota.
  rewrite (session_loop_raise loads C WebSocketDisconnect
             (mkWorld (dict_setitem (registry w) C ws) (inbox w)
                (outbox w ++ atomic_sends (dict_setitem (registry w) C ws))
                (logs w ++ [LogNewConnection C]) (socket w))
             (mkWorld (dict_setitem (registry w) C ws) rest
                (outbox w ++ atomic_sends (dict_setitem (registry w) C ws))
                (logs w ++ [LogNewConnection C]) (socket w)))
    by (etransitivity; [apply (loop_iteration_close loads C rest); cbn; exact Hi | reflexivity]).
  unfold on_session_error, bind at 1. rewrite disconnect_run. cbn [registry].
  rewrite dict_contains_setitem. cbv beta iota.
  rewrite broadcast_user_list_sends, send_all_ok by (intros; apply Hok).
  cbn [registry inbox outbox logs socket]. rewrite <- !app_assoc. reflexivity.
Qed.

Lemma endpoint_connect_then_close_witness :
  ~ In "C" (dict_keys (registry w_two_clients))
  /\ fst (websocket_endpoint (fun _ => None) 3 "C"
            (mkWorld (registry w_two_clients) [RxClose] [] [] (fun _ => SendOk)))
     = ROk tt.
Proof.
  assert (Hn : ~ In "C" (dict_keys (registry w_two_clients)))
    by (cbn; intros [H|[H|[]]]; discriminate).
  split; [exact Hn|].
  rewrite (proj1 (endpoint_connect_then_close (fun _ => None)
                    (mkWorld (registry w_two_clients) [RxClose] [] [] (fun _ => SendOk))
                    3 "C" [] (fun _ => eq_refl) Hn eq_refl)).
  reflexivity.
Defined.

(** A [target] whose Python truth value is false ([""], [0], [false],
    [null], [[]], [{}]) is handled as a missing one, registered or not:
    only the no-target warning is printed and the loop goes on. *)
Theorem falsy_target_treated_as_missing (loads : string -> option json) (w : world)
  (A data : string) (fs : list (string * json)) (t : json) (rest : list frame)
  (Hi : inbox w = RxText data :: rest) (Hl : loads data = Some (JObj fs))
  (Ht : obj_get fs "target" = Some t) (Hf : truthy t = false) :
  loop_iteration loads A w
  = (ROk tt, mkWorld (registry w) rest (outbox w) (logs w ++ [LogNoTarget A]) (socket w))
  /\ session_loop loads A w
     = session_loop loads A
         (mkWorld (registry w) rest (outbox w) (logs w ++ [LogNoTarget A]) (socket w)).
Proof.
  assert (Hrun : loop_iteration loads A w
                 = (ROk tt, mkWorld (registry w) rest (outbox w)
                              (logs w ++ [LogNoTarget A]) (socket w))).
  { rewrite (loop_iteration_object loads A data fs rest w Hi Hl), Ht, Hf. reflexivity. }
  split; [exact Hrun|].
  eapply session_loop_continue; [|exact Hrun]. rewrite Hi. reflexivity.
Qed.

Definition loads_empty_list_target (s : string) : option json :=
  Some (JObj [("target", JArr [])]).

Lemma falsy_target_treated_as_missing_witness :
  truthy (JArr []) = false
  /\ loop_iteration loads_empty_list_target "A" w_unknown_target
     = (ROk tt, mkWorld [Some ("A", 1)] [] [] [LogNoTarget "A"] (socket w_unknown_target)).
Proof.
  assert (Hf : truthy (JArr []) = false) by reflexivity.
  split; [exact Hf|].
  exact (proj1 (falsy_target_treated_as_missing loads_empty_list_target w_unknown_target
                  "A" "m" [("target", JArr [])] (JArr []) [] eq_refl eq_refl eq_refl Hf)).
Defined.

(** A frame that is valid JSON but not an object (a list, string,
    number, bool or null) has no [get]: the AttributeError ends the
    session through the [except Exception] clause. *)
Theorem non_object_message_ends_session (loads : string -> option json) (w : world)
  (A data : string) (v : json) (rest : list frame)
  (Hi : inbox w = RxText data :: rest) (Hl : loads data = Some v)
  (Hv : forall fs, v <> JObj fs) :
  session_loop loads A w
  = on_session_error A AttributeError
      (mkWorld (registry w) rest (outbox w) (logs w) (socket w)).
Proof.
  apply session_loop_raise.
  unfold loop_iteration, bind at 1, receive_text at 1. rewrite Hi.
  cbv beta iota. rewrite Hl. unfold bind at 1, message_get.
  destruct v; try reflexivity. exfalso; eapply Hv; reflexivity.
Qed.

Lemma non_object_message_ends_session_witness :
  (forall fs, JArr [JStr "B"] <> JObj fs)
  /\ fst (session_loop (fun _ => Some (JArr [JStr "B"])) "A" w_unknown_target)
     = ROk tt.
Proof.
  assert (Hv : forall fs, JArr [JStr "B"] <> JObj fs) by discriminate.
  split; [exact Hv|].
  rewrite (non_object_message_ends_session (fun _ => Some (JArr [JStr "B"]))
             w_unknown_target "A" "m" (JArr [JStr "B"]) [] eq_refl eq_refl Hv).
  reflexivity.
Defined.

(** When forwarding to a registered target raises (the target's socket
    is broken), it is the sender's session that ends: the sender is
    removed from the dict and the user list is broadcast. *)
Theorem forward_failure_ends_sender_session (loads : string -> option json)
  (w : world) (A B data : string) (hB : handle) (fs : list (string * json))
  (rest : list frame) (e : exc)
  (Hi : inbox w = RxText data :: rest) (Hl : loads data = Some (JObj fs))
  (Ht : obj_get fs "target" = Some (JStr B)) (HB : B <> "")
  (Hreg : dict_lookup (registry w) B = Some hB) (Hfail : socket w hB = SendRaise e)
  (Hnd : NoDup (dict_keys (registry w))) :
  session_loop loads A w
  = on_session_error A e (mkWorld (registry w) rest (outbox w) (logs w) (socket w))
  /\ dict_lookup (registry (snd (session_loop loads A w))) A = None.
Proof.
  assert (Hs : session_loop loads A w
               = on_session_error A e
                   (mkWorld (registry w) rest (outbox w) (logs w) (socket w))).
  { apply session_loop_raise.
    rewrite (loop_iteration_forward loads w A B data hB fs rest Hi Hl Ht HB Hreg).
    unfold send_json. cbn [socket]. rewrite Hfail. reflexivity. }
  split; [exact Hs|].
  rewrite Hs, on_session_error_registry. apply disconnect_removes. exact Hnd.
Qed.

Definition w_broken_target : world :=
  mkWorld [Some ("A", 1); Some ("B", 2)] [RxText "offer"] [] []
          (fun h => if Nat.eqb h 2 then SendRaise WebSocketDisconnect else SendOk).

Lemma forward_failure_ends_sender_session_witness :
  NoDup (dict_keys (registry w_broken_target))
  /\ dict_lookup (registry (snd (session_loop loads_route "A" w_broken_target))) "A"
     = None.
Proof.
  assert (Hnd : NoDup (dict_keys (registry w_broken_target))).
  { cbn. constructor; [cbn; intros [H|[]]; discriminate|].
    constructor; [intros []|constructor]. }
  split; [exact Hnd|].
  exact (proj2 (forward_failure_ends_sender_session loads_route w_broken_target "A" "B"
                  "offer" 2 [("target", JStr "B"); ("from", JStr "X"); ("sdp", JStr "v=0")]
                  [] WebSocketDisconnect eq_refl eq_refl eq_refl ltac:(discriminate)
                  eq_refl eq_refl Hnd)).
Defined.

(** A frame the session can forward: it decodes to an object whose
    [target] is a non-empty str registered in [d]. *)
Definition forwardable (loads : string -> option json) (d : dict) (f : frame) : Prop :=
  exists data fs B hB,
    f = RxText data /\ loads data = Some (JObj fs)
    /\ obj_get fs "target" = Some (JStr B) /\ B <> ""
    /\ dict_lookup d B = Some hB.

(** What the session sends for one forwardable frame. *)
Definition forwarded (loads : string -> option json) (d : dict) (A : string)
  (f : frame) : list (handle * json) :=
  match f with
  | RxText data =>
      match loads data with
      | Some (JObj fs) =>
          match obj_get fs "target" with
          | Some (JStr B) =>
              match dict_lookup d B with
              | Some hB => [(hB, JObj (obj_setitem fs "from" (JStr A)))]
              | None => []
              end
          | _ => []
          end
      | _ => []
      end
  | RxClose => []
  end.

(** Frames are forwarded in the order they are received: with working
    sockets, a session that receives forwardable frames sends one message
    per frame, in that order, and then waits for the next frame with the
    dict unchanged. *)
Theorem session_forwards_in_order (loads : string -> option json) (A : string)
  (frames : list frame) : forall w,
  inbox w = frames -> (forall h, socket w h = SendOk) ->
  Forall (forwardable loads (registry w)) frames ->
  session_loop loads A w
  = (RBlock, mkWorld (registry w) []
               (outbox w ++ flat_map (forwarded loads (registry w) A) frames)
               (logs w) (socket w)).
Proof.
  induction frames as [|f frames IH]; intros w Hi Hok Hall.
  - rewrite session_loop_idle by exact Hi. destruct w; cbn in *; subst.
    rewrite app_nil_r. reflexivity.
  - inversion Hall as [|? ? Hf Hrest]; subst.
    destruct Hf as (data & fs & B & hB & -> & Hl & Ht & HB & Hreg).
    assert (Hrun : loop_iteration loads A w
                   = (ROk tt, mkWorld (registry w) frames
                        (outbox w ++ [(hB, JObj (obj_setitem fs "from" (JStr A)))])
                        (logs w) (socket w))).
    { rewrite (loop_iteration_forward loads w A B data hB fs frames Hi Hl Ht HB Hreg).
      apply send_json_ok_world. cbn. apply Hok. }
    rewrite (session_loop_continue loads A (RxText data) w
               (mkWorld (registry w) frames
                  (outbox w ++ [(hB, JObj (obj_setitem fs "from" (JStr A)))])
                  (logs w) (socket w)) ltac:(rewrite Hi; reflexivity) Hrun).
    rewrite IH; cbn [registry inbox outbox logs socket]; auto.
    cbn [flat_map forwarded]. rewrite Hl, Ht, Hreg.
    rewrite <- app_assoc. reflexivity.
Qed.

Definition loads_two_targets (s : string) : option json :=
  if String.eqb s "to_B" then Some (JObj [("target", JStr "B"); ("n", JNum 1)])
  else Some (JObj [("target", JStr "A"); ("n", JNum 2)]).

Lemma session_forwards_in_order_witness :
  Forall (forwardable loads_two_targets [Some ("A", 1); Some ("B", 2)])
         [RxText "to_B"; RxText "to_A"]
  /\ session_loop loads_two_targets "A"
       (mkWorld [Some ("A", 1); Some ("B", 2)] [RxText "to_B"; RxText "to_A"] [] []
                (fun _ => SendOk))
     = (RBlock, mkWorld [Some ("A", 1); Some ("B", 2)] []
          (flat_map (forwarded loads_two_targets [Some ("A", 1); Some ("B", 2)] "A")
                    [RxText "to_B"; RxText "to_A"]) [] (fun _ => SendOk)).
Proof.
  assert (Hall : Forall (forwardable loads_two_targets [Some ("A", 1); Some ("B", 2)])
                        [RxText "to_B"; RxText "to_A"]).
  { constructor; [|constructor; [|constructor]].
    - exists "to_B", [("target", JStr "B"); ("n", JNum 1)], "B", 2.
      repeat split; try reflexivity; discriminate.
    - exists "to_A", [("target", JStr "A"); ("n", JNum 2)], "A", 1.
      repeat split; try reflexivity; discriminate. }
  split; [exact Hall|].
  exact (session_forwards_in_order loads_two_targets "A" [RxText "to_B"; RxText "to_A"]
           (mkWorld [Some ("A", 1); Some ("B", 2)] [RxText "to_B"; RxText "to_A"] [] []
                    (fun _ => SendOk)) eq_refl (fun _ => eq_refl) Hall).
Defined.

(* ================================================================== *)
(** * The frame streamer of src/browser_python_bridge/main.py *)

(** [stream_video] serves one WebSocket: it reads one JSON request and,
    when the request is [{"action": "start"}], streams synthetic RGBA
    frames of a preset resolution until a send fails.  Timing (the
    [time.perf_counter] readings and the [asyncio.sleep] that regulates
    the frame rate) only feeds the log text and is not modelled. *)
Module Bridge.

Local Open Scope Z_scope.
Local Set Warnings "-notation-overridden".

(** Exceptions that reach the handlers of [stream_video]. *)
Inductive error :=
| ConnectionClosed
| JSONDecodeError
| AttributeError
| TypeError
| OtherError.

(** The [logging] calls, without their formatted timings. *)
Inductive logline :=
| LogClientConnected
| LogStartRequest (width height : Z)
| LogInitialized (width height : Z)
| LogTimings
| LogConnectionClosed
| LogError (e : error)
| LogClientDisconnected.

(** The connection as the handler sees it: the messages the client sent
    (once they are used up the client has closed the connection, and
    [recv] raises), the frames sent so far, the log, and which sends fail
    (indexed by the number of frames sent before). *)
Record world := mkWorld {
  incoming : list string;
  sent : list (list Z);
  logs : list logline;
  send_fails : nat -> option error
}.

(** Outcome of the handler: done, an exception, or still streaming when
    the fuel of the [while True] loop runs out. *)
Inductive res (A : Type) :=
| Ok (a : A)
| Raised (e : error)
| Streaming.
Arguments Ok {A} a.
Arguments Raised {A} e.
Arguments Streaming {A}.

Definition M (A : Type) := world -> res A * world.

Definition ret {A} (a : A) : M A := fun w => (Ok a, w).

Definition bind {A B} (m : M A) (k : A -> M B) : M B :=
  fun w =>
    match m w with
    | (Ok a, w') => k a w'
    | (Raised e, w') => (Raised e, w')
    | (Streaming, w') => (Streaming, w')
    end.

Local Notation "x <- m ;; k" := (bind m (fun x => k))
  (at level 61, m at next level, right associativity).
Local Notation "m ;;; k" := (bind m (fun _ => k))
  (at level 61, right associativity).

Definition raise {A} (e : error) : M A := fun w => (Raised e, w).

Definition streaming {A} : M A := fun w => (Streaming, w).

Definition log (l : logline) : M unit :=
  fun w => (Ok tt, mkWorld (incoming w) (sent w) (logs w ++ [l]) (send_fails w)).

(** [await websocket.recv()]. *)
Definition recv : M string :=
  fun w =>
    match incoming w with
    | [] => (Raised ConnectionClosed, w)
    | m :: rest => (Ok m, mkWorld rest (sent w) (logs w) (send_fails w))
    end.

(** [await websocket.send(frame_bytes)]. *)
Definition send (message : list Z) : M unit :=
  fun w =>
    match send_fails w (List.length (sent w)) with
    | None => (Ok tt, mkWorld (incoming w) (sent w ++ [message]) (logs w) (send_fails w))
    | Some e => (Raised e, w)
    end.

(** [try: m except e: h e]. *)
Definition try_except {A} (m : M A) (h : error -> M A) : M A :=
  fun w =>
    match m w with
    | (Raised e, w') => h e w'
    | r => r
    end.

(** [try: m finally: fin]: [fin] runs when [m] returns or raises, and
    the exception of [m] is raised again after it. *)
Definition try_finally {A} (m : M A) (fin : M unit) : M A :=
  fun w =>
    match m w with
    | (Ok a, w') => bind fin (fun _ => ret a) w'
    | (Raised e, w') => bind fin (fun _ => raise e) w'
    | (Streaming, w') => (Streaming, w')
    end.

(** [RESOLUTIONS]. *)
Definition RESOLUTIONS : list (string * (Z * Z)) :=
  [("HD (1280x720)", (1280, 720));
   ("FHD (1920x1080)", (1920, 1080));
   ("4K (3840x2160)", (3840, 2160))].

Fixpoint str_lookup {V} (l : list (string * V)) (k : string) : option V :=
  match l with
  | [] => None
  | (k', v) :: t => if String.eqb k' k then Some v else str_lookup t k
  end.

(** [RESOLUTIONS.get(key, default)]: [None] when the key is a list or a
    dict, which cannot be hashed (TypeError); a key of another type never
    equals a str key and gets the default. *)
Definition resolutions_lookup (key : json) (default : Z * Z) : option (Z * Z) :=
  match key with
  | JArr _ | JObj _ => None
  | JStr s => Some (match str_lookup RESOLUTIONS s with Some v => v | None => default end)
  | _ => Some default
  end.

Definition resolutions_get (key : json) (default : Z * Z) : M (Z * Z) :=
  match resolutions_lookup key default with
  | Some v => ret v
  | None => raise TypeError
  end.

(** [json.loads(message)]. *)
Definition loads_m (json_loads : string -> option json) (message : string) : M json :=
  match json_loads message with
  | Some v => ret v
  | None => raise JSONDecodeError
  end.

(** [d.get(key, default)] on a dict. *)
Definition dict_get (fs : list (string * json)) (key : string) (default : json) : json :=
  match obj_get fs key with Some v => v | None => default end.

(** [data.get(key, default)]: only a dict has [get]. *)
Definition data_get (data : json) (key : string) (default : json) : M json :=
  match data with
  | JObj fs => ret (dict_get fs key default)
  | _ => raise AttributeError
  end.

(** [v == "start"]. *)
Definition eq_start (v : json) : bool :=
  match v with JStr s => String.eqb s "start" | _ => false end.

(** [VideoSource]. *)
Record VideoSource := { width : Z; height : Z; frame_index : nat }.

(** [uint8 + int] in NumPy: an int shift in the uint8 range keeps the
    array's dtype, so the sum is taken modulo 256. *)
Definition u8_add (a b : Z) : Z := (a + b) mod 256.

(** The four channels of the pixel at gradient values [yv] (its row)
    and [xv] (its column): lines 50 to 53 of [get_frame]. *)
Definition pixel (yv xv r_shift g_shift b_shift : Z) : list Z :=
  [u8_add yv r_shift mod 255; u8_add xv g_shift mod 255; b_shift; 255].

(** What a connection's log line says about an exception that reaches
    the handlers. *)
Definition error_log (e : error) : logline :=
  match e with
  | ConnectionClosed => LogConnectionClosed
  | _ => LogError e
  end.

Definition on_error (e : error) : M unit := log (error_log e).

Section Stream.

(** [json.loads], [None] standing for a JSONDecodeError. *)
Variable json_loads : string -> option json.

(** [np.linspace(0, 255, n, dtype=np.uint8)] and the three colour shifts
    [int(127 * (1 + sin(i * 0.05)))], [int(127 * (1 + sin(i * 0.03)))]
    and [int(127 * (1 + cos(i * 0.07)))] of frame [i] are computed in
    floating point and are inputs of the model. *)
Variable linspace_u8 : Z -> list Z.
Variables r_shift g_shift b_shift : nat -> Z.

(** [get_frame().tobytes()] for frame [frame_index]: [tobytes] walks the
    (height, width, 4) array in C order, row by row, pixel by pixel. *)
Definition get_frame_bytes (width height : Z) (frame_index : nat) : list Z :=
  let y_gradient := linspace_u8 height in
  let x_gradient := linspace_u8 width in
  flat_map (fun yv =>
    flat_map (fun xv =>
      pixel yv xv (r_shift frame_index) (g_shift frame_index) (b_shift frame_index))
      x_gradient)
    y_gradient.

(** [get_frame]: the bytes, and [self.frame_index += 1]. *)
Definition get_frame (vs : VideoSource) : list Z * VideoSource :=
  (get_frame_bytes (width vs) (height vs) (frame_index vs),
   {| width := width vs; height := height vs; frame_index := S (frame_index vs) |}).

(** [VideoSource(width, height)]. *)
Definition video_source_init (w h : Z) : M VideoSource :=
  log (LogInitialized w h) ;;;
  ret {| width := w; height := h; frame_index := 0 |}.

(** The [while True] loop of [stream_video], run for at most [fuel]
    frames. *)
Fixpoint stream_frames (fuel : nat) (video_source : VideoSource) : M unit :=
  match fuel with
  | O => streaming
  | S fuel' =>
      let (frame_bytes, video_source') := get_frame video_source in
      send frame_bytes ;;;
      log LogTimings ;;;
      stream_frames fuel' video_source'
  end.

(** The body of the [try] of [stream_video]. *)
Definition stream_body (fuel : nat) : M unit :=
  message <- recv ;;
  data <- loads_m json_loads message ;;
  action <- data_get data "action" JNull ;;
  if eq_start action then
    resolution_key <- data_get data "resolution" (JStr "HD (1280x720)") ;;
    size <- resolutions_get resolution_key (1280, 720) ;;
    log (LogStartRequest (fst size) (snd size)) ;;;
    video_source <- video_source_init (fst size) (snd size) ;;
    stream_frames fuel video_source
  else ret tt.

(** [stream_video]. *)
Definition stream_video (fuel : nat) : M unit :=
  log LogClientConnected ;;;
  try_finally (try_except (stream_body fuel) on_error) (log LogClientDisconnected).

(* ------------------------------------------------------------------ *)
(** ** Frames *)

Lemma length_flat_map_uniform {A B} (f : A -> list B) (n : nat) (l : list A) :
  (forall a, List.length (f a) = n) ->
  List.length (flat_map f l) = (List.length l * n)%nat.
Proof.
  intros Hf. induction l as [|a l IH]; cbn; [reflexivity|].
  rewrite length_app, Hf, IH. reflexivity.
Qed.

Lemma nth_flat_map_uniform {A B} (f : A -> list B) (n : nat) (l : list A)
  (a0 : A) (d : B) :
  (forall a, List.length (f a) = n) ->
  forall i j, (i < List.length l)%nat -> (j < n)%nat ->
  nth (i * n + j) (flat_map f l) d = nth j (f (nth i l a0)) d.
Proof.
  intros Hf. induction l as [|a l IH]; intros i j Hi Hj; cbn in Hi; [lia|].
  cbn [flat_map]. destruct i as [|i].
  - rewrite app_nth1 by (rewrite Hf; lia). reflexivity.
  - rewrite app_nth2 by (rewrite Hf; nia). rewrite Hf.
    replace (S i * n + j - n)%nat with (i * n + j)%nat by nia.
    cbn [nth]. apply IH; lia.
Qed.

Lemma length_pixel (yv xv r g b : Z) : List.length (pixel yv xv r g b) = 4%nat.
Proof. reflexivity. Qed.

Lemma length_frame_row (W : Z) (yv r g b : Z) :
  List.length (flat_map (fun xv => pixel yv xv r g b) (linspace_u8 W))
  = (List.length (linspace_u8 W) * 4)%nat.
Proof. apply length_flat_map_uniform. intros; apply length_pixel. Qed.

Lemma frame_bytes_length (W H : Z) (i : nat)
  (HW : List.length (linspace_u8 W) = Z.to_nat W)
  (HH : List.length (linspace_u8 H) = Z.to_nat H) :
  List.length (get_frame_bytes W H i) = (Z.to_nat H * Z.to_nat W * 4)%nat.
Proof.
  unfold get_frame_bytes.
  rewrite (length_flat_map_uniform _ (Z.to_nat W * 4)%nat).
  - rewrite HH. lia.
  - intros yv. rewrite length_frame_row, HW. reflexivity.
Qed.

(** A frame of [width] x [height] is [height] rows of [width] pixels of
    four bytes each. *)
Theorem get_frame_bytes_length (W H : Z) (i : nat)
  (HW : List.length (linspace_u8 W) = Z.to_nat W)
  (HH : List.length (linspace_u8 H) = Z.to_nat H) :
  List.length (get_frame_bytes W H i) = (Z.to_nat H * Z.to_nat W * 4)%nat.
Proof. exact (frame_bytes_length W H i HW HH). Qed.

(** Byte [4 * (y * width + x) + c] of a frame is channel [c] (R, G, B,
    A) of the pixel in row [y] and column [x], computed from
    [y_gradient[y]], [x_gradient[x]] and the frame's shifts. *)
Theorem get_frame_bytes_layout (W H : Z) (i y x c : nat)
  (HW : List.length (linspace_u8 W) = Z.to_nat W)
  (HH : List.length (linspace_u8 H) = Z.to_nat H)
  (Hy : (y < Z.to_nat H)%nat) (Hx : (x < Z.to_nat W)%nat) (Hc : (c < 4)%nat) :
  nth (4 * (y * Z.to_nat W + x) + c) (get_frame_bytes W H i) 0
  = nth c (pixel (nth y (linspace_u8 H) 0) (nth x (linspace_u8 W) 0)
               (r_shift i) (g_shift i) (b_shift i)) 0.
Proof.
  unfold get_frame_bytes.
  replace (4 * (y * Z.to_nat W + x) + c)%nat
    with (y * (Z.to_nat W * 4) + (x * 4 + c))%nat by nia.
  rewrite (nth_flat_map_uniform _ (Z.to_nat W * 4)%nat _ 0 0).
  - apply (nth_flat_map_uniform
             (fun xv => pixel (nth y (linspace_u8 H) 0) xv (r_shift i) (g_shift i) (b_shift i))
             4%nat _ 0 0).
    + intros; apply length_pixel.
    + rewrite HW. exact Hx.
    + exact Hc.
  - intros yv. rewrite length_frame_row, HW. reflexivity.
  - rewrite HH. exact Hy.
  - lia.
Qed.

(** Every value of a frame is a byte, whatever the gradients and the red
    and green shifts, as long as the blue shift is one. *)
Theorem get_frame_bytes_are_bytes (W H : Z) (i : nat)
  (Hb : 0 <= b_shift i <= 255) :
  Forall (fun v => 0 <= v <= 255) (get_frame_bytes W H i).
Proof.
  apply Forall_forall. intros v Hv. unfold get_frame_bytes in Hv.
  apply in_flat_map in Hv as (yv & _ & Hv).
  apply in_flat_map in Hv as (xv & _ & Hv).
  unfold pixel, u8_add in Hv. cbn in Hv.
  destruct Hv as [<-|[<-|[<-|[<-|[]]]]]; try lia;
    match goal with |- context [?a mod 255] =>
      pose proof (Z.mod_pos_bound a 255 ltac:(lia)); lia end.
Qed.

(* ------------------------------------------------------------------ *)
(** ** The streaming loop *)

Lemma stream_frames_all_sent (fuel : nat) : forall (vs : VideoSource) (w : world),
  (forall j, (j < fuel)%nat -> send_fails w (List.length (sent w) + j) = None) ->
  stream_frames fuel vs w
  = (Streaming, mkWorld (incoming w)
       (sent w ++ map (get_frame_bytes (width vs) (height vs)) (seq (frame_index vs) fuel))
       (logs w ++ repeat LogTimings fuel) (send_fails w)).
Proof.
  induction fuel as [|fuel IH]; intros vs w Hs.
  - destruct w; cbn. rewrite !app_nil_r. reflexivity.
  - pose proof (Hs 0%nat ltac:(lia)) as H0. rewrite Nat.add_0_r in H0.
    cbn [stream_frames get_frame]. unfold bind at 1, send at 1. rewrite H0.
    unfold bind at 1, log at 1. rewrite IH.
    + cbn. rewrite <- !app_assoc. reflexivity.
    + intros j Hj. cbn. rewrite length_app. cbn.
      replace (List.length (sent w) + 1 + j)%nat with (List.length (sent w) + S j)%nat
        by lia.
      apply Hs. lia.
Qed.

Lemma stream_frames_send_fails (k : nat) :
  forall (fuel : nat) (vs : VideoSource) (w : world) (e : error),
  (k < fuel)%nat ->
  (forall j, (j < k)%nat -> send_fails w (List.length (sent w) + j) = None) ->
  send_fails w (List.length (sent w) + k) = Some e ->
  stream_frames fuel vs w
  = (Raised e, mkWorld (incoming w)
       (sent w ++ map (get_frame_bytes (width vs) (height vs)) (seq (frame_index vs) k))
       (logs w ++ repeat LogTimings k) (send_fails w)).
Proof.
  induction k as [|k IH]; intros fuel vs w e Hk Hs He;
    (destruct fuel as [|fuel]; [lia|]).
  - rewrite Nat.add_0_r in He.
    cbn [stream_frames get_frame]. unfold bind at 1, send at 1. rewrite He.
    destruct w; cbn. rewrite !app_nil_r. reflexivity.
  - pose proof (Hs 0%nat ltac:(lia)) as H0. rewrite Nat.add_0_r in H0.
    cbn [stream_frames get_frame]. unfold bind at 1, send at 1. rewrite H0.
    unfold bind at 1, log at 1. rewrite (IH fuel _ _ e).
    + cbn. rewrite <- !app_assoc. reflexivity.
    + lia.
    + intros j Hj. cbn. rewrite length_app. cbn.
      replace (List.length (sent w) + 1 + j)%nat with (List.length (sent w) + S j)%nat
        by lia.
      apply Hs. lia.
    + cbn. rewrite length_app. cbn.
      replace (List.length (sent w) + 1 + k)%nat with (List.length (sent w) + S k)%nat
        by lia.
      exact He.
Qed.

Lemma stream_frames_sent (fuel : nat) : forall (vs : VideoSource) (w : world),
  exists k, sent (snd (stream_frames fuel vs w))
            = sent w ++ map (get_frame_bytes (width vs) (height vs)) (seq (frame_index vs) k).
Proof.
  induction fuel as [|fuel IH]; intros vs w.
  - exists 0%nat. cbn. rewrite app_nil_r. reflexivity.
  - cbn [stream_frames get_frame]. unfold bind at 1, send at 1.
    destruct (send_fails w (List.length (sent w))) as [e|] eqn:Hs.
    + exists 0%nat. cbn. rewrite app_nil_r. reflexivity.
    + unfold bind at 1, log at 1.
      destruct (IH {| width := width vs; height := height vs;
                      frame_index := S (frame_index vs) |}
                   (mkWorld (incoming w) (sent w ++ [get_frame_bytes (width vs) (height vs)
                                                    (frame_index vs)])
                            (logs w ++ [LogTimings]) (send_fails w))) as [k Hk].
      exists (S k). cbn in Hk |- *. rewrite Hk, <- app_assoc. reflexivity.
Qed.

(* ------------------------------------------------------------------ *)
(** ** The handler *)

Local Ltac run :=
  cbv [stream_body bind recv loads_m data_get resolutions_get ret raise log
       video_source_init incoming sent logs send_fails fst snd].

Lemma stream_video_run (fuel : nat) (w : world) :
  stream_video fuel w =
  match stream_body fuel (mkWorld (incoming w) (sent w) (logs w ++ [LogClientConnected])
                                  (send_fails w)) with
  | (Ok _, w2) =>
      (Ok tt, mkWorld (incoming w2) (sent w2) (logs w2 ++ [LogClientDisconnected])
                      (send_fails w2))
  | (Raised e, w2) =>
      (Ok tt, mkWorld (incoming w2) (sent w2)
                      (logs w2 ++ [error_log e; LogClientDisconnected]) (send_fails w2))
  | (Streaming, w2) => (Streaming, w2)
  end.
Proof.
  unfold stream_video, bind at 1, log at 1.
  unfold try_finally, try_except.
  destruct (stream_body fuel _) as [[[]|e|] w2]; cbv [bind log on_error ret raise];
    cbn; try rewrite <- app_assoc; reflexivity.
Qed.

Lemma eq_start_action (fs : list (string * json)) :
  obj_get fs "action" = Some (JStr "start") ->
  eq_start (dict_get fs "action" JNull) = true.
Proof. intros Ha. unfold dict_get. rewrite Ha. reflexivity. Qed.

Lemma stream_body_start (fuel : nat) (w : world) (m : string) (rest : list string)
  (fs : list (string * json)) (W H : Z)
  (Hi : incoming w = m :: rest) (Hl : json_loads m = Some (JObj fs))
  (Ha : eq_start (dict_get fs "action" JNull) = true)
  (Hr : resolutions_lookup (dict_get fs "resolution" (JStr "HD (1280x720)")) (1280, 720)
        = Some (W, H)) :
  stream_body fuel w
  = stream_frames fuel {| width := W; height := H; frame_index := 0 |}
      (mkWorld rest (sent w) (logs w ++ [LogStartRequest W H; LogInitialized W H])
               (send_fails w)).
Proof.
  destruct w as [inc s l sf]; cbn in Hi; subst inc.
  run. rewrite Hl. run. rewrite Ha. run. rewrite Hr. run.
  rewrite <- app_assoc. reflexivity.
Qed.

Lemma str_lookup_in {V} (l : list (string * V)) (k : string) (v : V) :
  str_lookup l k = Some v -> In v (map snd l).
Proof.
  induction l as [|[k' v'] t IH]; cbn; [discriminate|].
  destruct (String.eqb k' k); [injection 1 as <-; left; reflexivity|].
  intros H. right. apply IH, H.
Qed.

Lemma resolutions_lookup_preset (key : json) (s : Z * Z) :
  resolutions_lookup key (1280, 720) = Some s -> In s (map snd RESOLUTIONS).
Proof.
  assert (Hd : In (1280, 720) (map snd RESOLUTIONS)) by (left; reflexivity).
  destruct key as [| | |s0| |]; unfold resolutions_lookup; intros H;
    try discriminate H; try (injection H as <-; exact Hd).
  destruct (str_lookup RESOLUTIONS s0) as [v|] eqn:E; injection H as <-;
    [exact (str_lookup_in _ _ _ E)|exact Hd].
Qed.

(** Whatever the client sends, the frames the server sends are the
    frames [0, 1, 2, ...] of one resolution among the three presets, each
    of [height * width * 4] bytes. *)
Theorem stream_frames_are_preset_sized (fuel : nat) (w : world)
  (Hlin : Forall (fun r => List.length (linspace_u8 (fst (snd r))) = Z.to_nat (fst (snd r))
                           /\ List.length (linspace_u8 (snd (snd r)))
                              = Z.to_nat (snd (snd r))) RESOLUTIONS) :
  exists W H k,
    In (W, H) (map snd RESOLUTIONS)
    /\ sent (snd (stream_video fuel w)) = sent w ++ map (get_frame_bytes W H) (seq 0 k)
    /\ Forall (fun f => List.length f = (Z.to_nat H * Z.to_nat W * 4)%nat)
              (map (get_frame_bytes W H) (seq 0 k)).
Proof.
  assert (Hsz : forall W H k, In (W, H) (map snd RESOLUTIONS) ->
            Forall (fun f => List.length f = (Z.to_nat H * Z.to_nat W * 4)%nat)
                   (map (get_frame_bytes W H) (seq 0 k))).
  { intros W H k Hin. apply Forall_forall. intros f Hf.
    apply in_map_iff in Hf as (i & <- & _).
    apply in_map_iff in Hin as ([name [W' H']] & Heq & Hin). cbn in Heq.
    injection Heq as -> ->.
    rewrite Forall_forall in Hlin. destruct (Hlin _ Hin) as [HW HH]. cbn in HW, HH.
    apply frame_bytes_length; assumption. }
  assert (Hd : In (1280, 720) (map snd RESOLUTIONS)) by (cbn; auto).
  assert (Hbody : exists W H k, In (W, H) (map snd RESOLUTIONS)
            /\ sent (snd (stream_body fuel (mkWorld (incoming w) (sent w)
                         (logs w ++ [LogClientConnected]) (send_fails w))))
               = sent w ++ map (get_frame_bytes W H) (seq 0 k)).
  { destruct (incoming w) as [|m rest] eqn:Hi.
    - exists 1280, 720, 0%nat. split; [exact Hd|]. cbn. rewrite app_nil_r. reflexivity.
    - destruct (json_loads m) as [v|] eqn:Hl.
      2: { exists 1280, 720, 0%nat. split; [exact Hd|]. run. rewrite Hl. cbn.
           rewrite app_nil_r. reflexivity. }
      destruct v as [| | | | |fs];
        try solve [exists 1280, 720, 0%nat; split; [exact Hd|]; run; rewrite Hl; cbn;
                   rewrite app_nil_r; reflexivity].
      destruct (eq_start (dict_get fs "action" JNull)) eqn:Ha.
      2: { exists 1280, 720, 0%nat. split; [exact Hd|]. run. rewrite Hl. run. rewrite Ha.
           cbn. rewrite app_nil_r. reflexivity. }
      destruct (resolutions_lookup (dict_get fs "resolution" (JStr "HD (1280x720)"))
                  (1280, 720)) as [[W H]|] eqn:Hr.
      2: { exists 1280, 720, 0%nat. split; [exact Hd|]. run. rewrite Hl. run. rewrite Ha.
           run. rewrite Hr. cbn. rewrite app_nil_r. reflexivity. }
      rewrite (stream_body_start fuel (mkWorld (m :: rest) (sent w)
                 (logs w ++ [LogClientConnected]) (send_fails w)) m rest fs W H
                 eq_refl Hl Ha Hr).
      destruct (stream_frames_sent fuel {| width := W; height := H; frame_index := 0 |}
                  (mkWorld rest (sent w) ((logs w ++ [LogClientConnected])
                                          ++ [LogStartRequest W H; LogInitialized W H])
                           (send_fails w))) as [k Hk].
      exists W, H, k. split; [exact (resolutions_lookup_preset _ _ Hr)|]. exact Hk. }
  destruct Hbody as (W & H & k & Hin & Hs).
  exists W, H, k. split; [exact Hin|]. split; [|exact (Hsz W H k Hin)].
  rewrite stream_video_run.
  destruct (stream_body fuel _) as [[a|e|] w2]; cbn in Hs |- *; exact Hs.
Qed.

(** The handler never lets an exception out of [stream_video], and when
    it returns, its last log line says the client disconnected. *)
Theorem stream_video_never_raises (fuel : nat) (w : world) :
  (forall e, fst (stream_video fuel w) <> Raised e)
  /\ (fst (stream_video fuel w) = Ok tt ->
      exists l, logs (snd (stream_video fuel w)) = l ++ [LogClientDisconnected]).
Proof.
  rewrite stream_video_run.
  destruct (stream_body fuel _) as [[a|e|] w2]; cbn; split; try discriminate.
  - intros _. exists (logs w2). reflexivity.
  - intros _. exists (logs w2 ++ [error_log e]). rewrite <- app_assoc. reflexivity.
Qed.

(** A start request streams frames [0, 1, ..., k - 1] at the requested
    preset (or 1280x720) and stops at the first send that fails, frame
    [k]: the error is logged (a closed connection as a warning) and the
    handler returns after logging the disconnection. *)
Theorem stream_until_send_fails (fuel k : nat) (w : world) (m : string)
  (rest : list string) (fs : list (string * json)) (W H : Z) (e : error)
  (Hi : incoming w = m :: rest) (Hl : json_loads m = Some (JObj fs))
  (Ha : obj_get fs "action" = Some (JStr "start"))
  (Hr : resolutions_lookup (dict_get fs "resolution" (JStr "HD (1280x720)")) (1280, 720)
        = Some (W, H))
  (Hk : (k < fuel)%nat)
  (Hok : forall j, (j < k)%nat -> send_fails w (List.length (sent w) + j) = None)
  (Hfail : send_fails w (List.length (sent w) + k) = Some e) :
  stream_video fuel w
  = (Ok tt, mkWorld rest (sent w ++ map (get_frame_bytes W H) (seq 0 k))
              (logs w ++ [LogClientConnected; LogStartRequest W H; LogInitialized W H]
                      ++ repeat LogTimings k ++ [error_log e; LogClientDisconnected])
              (send_fails w)).
Proof.
  rewrite stream_video_run.
  rewrite (stream_body_start fuel (mkWorld (incoming w) (sent w)
             (logs w ++ [LogClientConnected]) (send_fails w)) m rest fs W H Hi Hl
             (eq_start_action fs Ha) Hr).
  cbn [incoming sent logs send_fails].
  rewrite (stream_frames_send_fails k fuel _ (mkWorld rest (sent w)
             ((logs w ++ [LogClientConnected]) ++ [LogStartRequest W H; LogInitialized W H])
             (send_fails w)) e Hk Hok Hfail).
  cbn. rewrite <- !app_assoc. reflexivity.
Qed.

(** While the sends succeed, a start request keeps streaming the frames
    [0, 1, 2, ...] in order, one timing line per frame. *)
Theorem stream_runs_while_sends_succeed (fuel : nat) (w : world) (m : string)
  (rest : list string) (fs : list (string * json)) (W H : Z)
  (Hi : incoming w = m :: rest) (Hl : json_loads m = Some (JObj fs))
  (Ha : obj_get fs "action" = Some (JStr "start"))
  (Hr : resolutions_lookup (dict_get fs "resolution" (JStr "HD (1280x720)")) (1280, 720)
        = Some (W, H))
  (Hok : forall j, (j < fuel)%nat -> send_fails w (List.length (sent w) + j) = None) :
  stream_video fuel w
  = (Streaming, mkWorld rest (sent w ++ map (get_frame_bytes W H) (seq 0 fuel))
                  (logs w ++ [LogClientConnected; LogStartRequest W H; LogInitialized W H]
                          ++ repeat LogTimings fuel)
                  (send_fails w)).
Proof.
  rewrite stream_video_run.
  rewrite (stream_body_start fuel (mkWorld (incoming w) (sent w)
             (logs w ++ [LogClientConnected]) (send_fails w)) m rest fs W H Hi Hl
             (eq_start_action fs Ha) Hr).
  cbn [incoming sent logs send_fails].
  rewrite (stream_frames_all_sent fuel _ (mkWorld rest (sent w)
             ((logs w ++ [LogClientConnected]) ++ [LogStartRequest W H; LogInitialized W H])
             (send_fails w)) Hok).
  cbn. rewrite <- !app_assoc. reflexivity.
Qed.

(** A request whose action is not ["start"] (or has none) is answered
    with nothing: the handler logs the disconnection and returns. *)
Theorem non_start_request_streams_nothing (fuel : nat) (w : world) (m : string)
  (rest : list string) (fs : list (string * json))
  (Hi : incoming w = m :: rest) (Hl : json_loads m = Some (JObj fs))
  (Ha : obj_get fs "action" <> Some (JStr "start")) :
  stream_video fuel w
  = (Ok tt, mkWorld rest (sent w) (logs w ++ [LogClientConnected; LogClientDisconnected])
                    (send_fails w)).
Proof.
  assert (Hs : eq_start (dict_get fs "action" JNull) = false).
  { unfold dict_get. destruct (obj_get fs "action") as [v|]; [|reflexivity].
    destruct v; try reflexivity. cbn.
    destruct (String.eqb_spec s "start") as [->|]; [contradiction|reflexivity]. }
  rewrite stream_video_run. destruct w as [inc s l sf]; cbn in Hi; subst inc.
  run. rewrite Hl. run. rewrite Hs. cbn. rewrite <- app_assoc. reflexivity.
Qed.

(** A connection that fails before streaming (closed before its first
    message, a message that is not JSON, JSON that is not an object, or
    a start request whose resolution is a list or an object) gets no
    frame: the handler logs the error and the disconnection and returns. *)
Theorem setup_failure_streams_nothing (fuel : nat) (w : world) (rest : list string)
  (e : error)
  (Hfail : (incoming w = [] /\ rest = [] /\ e = ConnectionClosed)
           \/ exists m, incoming w = m :: rest
              /\ ((json_loads m = None /\ e = JSONDecodeError)
                  \/ (exists v, json_loads m = Some v /\ (forall fs, v <> JObj fs)
                                /\ e = AttributeError)
                  \/ (exists fs, json_loads m = Some (JObj fs)
                                 /\ obj_get fs "action" = Some (JStr "start")
                                 /\ resolutions_lookup
                                      (dict_get fs "resolution" (JStr "HD (1280x720)"))
                                      (1280, 720) = None
                                 /\ e = TypeError))) :
  stream_video fuel w
  = (Ok tt, mkWorld rest (sent w)
              (logs w ++ [LogClientConnected; error_log e; LogClientDisconnected])
              (send_fails w)).
Proof.
  rewrite stream_video_run. destruct w as [inc s l sf]; cbn in Hfail |- *.
  destruct Hfail as [(-> & -> & ->) | (m & -> & Hc)].
  - cbn. rewrite <- app_assoc. reflexivity.
  - destruct Hc as [(Hl & ->) | [(v & Hl & Hv & ->) | (fs & Hl & Ha & Hr & ->)]].
    + run. rewrite Hl. cbn. rewrite <- app_assoc. reflexivity.
    + run. rewrite Hl. destruct v; try (exfalso; eapply Hv; reflexivity);
        cbn; rewrite <- app_assoc; reflexivity.
    + run. rewrite Hl. run. rewrite (eq_start_action fs Ha). run. rewrite Hr. cbn.
      rewrite <- app_assoc. reflexivity.
Qed.

End Stream.

(** The red and green channels are the gradient plus the shift taken
    modulo 256 by the uint8 sum and then modulo 255: they climb with the
    gradient, drop to 0 at a sum of 255 and stay at 0 for a sum of 256
    before climbing again, and never reach 255. *)
Theorem gradient_channels_wrap (yv xv r g b : Z)
  (Hy : 0 <= yv <= 255) (Hx : 0 <= xv <= 255)
  (Hr : 0 <= r <= 254) (Hg : 0 <= g <= 254) :
  nth 0 (pixel yv xv r g b) 0
    = (if yv + r <? 255 then yv + r else if yv + r =? 255 then 0 else yv + r - 256)
  /\ nth 1 (pixel yv xv r g b) 0
    = (if xv + g <? 255 then xv + g else if xv + g =? 255 then 0 else xv + g - 256).
Proof.
  unfold pixel, u8_add. cbn [nth].
  assert (Hw : forall s, 0 <= s <= 509 ->
            (s mod 256) mod 255
            = if s <? 255 then s else if s =? 255 then 0 else s - 256).
  { intros s Hs. destruct (Z.ltb_spec s 255).
    - rewrite (Z.mod_small s 256), Z.mod_small; lia.
    - destruct (Z.eqb_spec s 255) as [->|]; [reflexivity|].
      rewrite <- (Z.mod_unique s 256 1 (s - 256)) by lia.
      apply Z.mod_small. lia. }
  split; apply Hw; lia.
Qed.

(** [np.linspace(0, 255, n)] in exact arithmetic, rounded down: an
    instance of [linspace_u8] for the examples. *)
Definition linspace_floor (n : Z) : list Z :=
  map (fun i => Z.of_nat i * 255 / (n - 1)) (seq 0 (Z.to_nat n)).

(** Constant shifts, those of frame 0 ([sin 0 = 0], [cos 0 = 1]). *)
Definition shift_127 (i : nat) : Z := 127.
Definition shift_254 (i : nat) : Z := 254.

Lemma gradient_channels_wrap_witness :
  (0 <= 200 <= 255 /\ 0 <= 129 <= 255 /\ 0 <= 127 <= 254 /\ 0 <= 127 <= 254)
  /\ nth 0 (pixel 200 129 127 127 254) 0 = 200 + 127 - 256
  /\ nth 1 (pixel 200 129 127 127 254) 0 = 0.
Proof.
  assert (Hy : 0 <= 200 <= 255) by lia. assert (Hx : 0 <= 129 <= 255) by lia.
  assert (Hr : 0 <= 127 <= 254) by lia.
  split; [repeat split; lia|].
  exact (gradient_channels_wrap 200 129 127 127 254 Hy Hx Hr Hr).
Defined.

Lemma get_frame_bytes_length_witness :
  List.length (linspace_floor 4) = Z.to_nat 4
  /\ List.length (linspace_floor 3) = Z.to_nat 3
  /\ List.length (get_frame_bytes linspace_floor shift_127 shift_127 shift_254 4 3 0)
     = (Z.to_nat 3 * Z.to_nat 4 * 4)%nat.
Proof.
  assert (HW : List.length (linspace_floor 4) = Z.to_nat 4) by reflexivity.
  assert (HH : List.length (linspace_floor 3) = Z.to_nat 3) by reflexivity.
  split; [exact HW|]. split; [exact HH|].
  exact (get_frame_bytes_length linspace_floor shift_127 shift_127 shift_254 4 3 0 HW HH).
Defined.

Lemma get_frame_bytes_layout_witness :
  List.length (linspace_floor 4) = Z.to_nat 4
  /\ List.length (linspace_floor 3) = Z.to_nat 3
  /\ (2 < Z.to_nat 3)%nat /\ (1 < Z.to_nat 4)%nat /\ (0 < 4)%nat
  /\ nth (4 * (2 * Z.to_nat 4 + 1) + 0)
         (get_frame_bytes linspace_floor shift_127 shift_127 shift_254 4 3 0) 0
     = nth 0 (pixel (nth 2 (linspace_floor 3) 0) (nth 1 (linspace_floor 4) 0)
                    (shift_127 0) (shift_127 0) (shift_254 0)) 0.
Proof.
  assert (HW : List.length (linspace_floor 4) = Z.to_nat 4) by reflexivity.
  assert (HH : List.length (linspace_floor 3) = Z.to_nat 3) by reflexivity.
  assert (Hy : (2 < Z.to_nat 3)%nat) by (cbn; lia).
  assert (Hx : (1 < Z.to_nat 4)%nat) by (cbn; lia).
  assert (Hc : (0 < 4)%nat) by lia.
  split; [exact HW|]. split; [exact HH|]. split; [exact Hy|]. split; [exact Hx|].
  split; [exact Hc|].
  exact (get_frame_bytes_layout linspace_floor shift_127 shift_127 shift_254 4 3 0 2 1 0
           HW HH Hy Hx Hc).
Defined.

Lemma get_frame_bytes_are_bytes_witness :
  0 <= shift_254 5 <= 255
  /\ Forall (fun v => 0 <= v <= 255)
            (get_frame_bytes linspace_floor shift_127 shift_127 shift_254 1280 720 5).
Proof.
  assert (Hb : 0 <= shift_254 5 <= 255) by (unfold shift_254; lia).
  split; [exact Hb|].
  exact (get_frame_bytes_are_bytes linspace_floor shift_127 shift_127 shift_254 1280 720 5 Hb).
Defined.

(** A client asking for 4K. *)
Definition loads_start_4k (s : string) : option json :=
  Some (JObj [("action", JStr "start"); ("resolution", JStr "4K (3840x2160)")]).

Lemma stream_frames_are_preset_sized_witness :
  Forall (fun r => List.length (linspace_floor (fst (snd r))) = Z.to_nat (fst (snd r))
                   /\ List.length (linspace_floor (snd (snd r))) = Z.to_nat (snd (snd r)))
         RESOLUTIONS
  /\ exists W H k,
       In (W, H) (map snd RESOLUTIONS)
       /\ sent (snd (stream_video loads_start_4k linspace_floor shift_127 shift_127
                                  shift_254 3 (mkWorld ["go"] [] [] (fun _ => None))))
          = [] ++ map (get_frame_bytes linspace_floor shift_127 shift_127 shift_254 W H)
                      (seq 0 k)
       /\ Forall (fun f => List.length f = (Z.to_nat H * Z.to_nat W * 4)%nat)
                 (map (get_frame_bytes linspace_floor shift_127 shift_127 shift_254 W H)
                      (seq 0 k)).
Proof.
  assert (Hlin : Forall (fun r => List.length (linspace_floor (fst (snd r)))
                                  = Z.to_nat (fst (snd r))
                                  /\ List.length (linspace_floor (snd (snd r)))
                                     = Z.to_nat (snd (snd r))) RESOLUTIONS).
  { vm_compute. repeat constructor. }
  split; [exact Hlin|].
  exact (stream_frames_are_preset_sized loads_start_4k linspace_floor shift_127 shift_127
           shift_254 3 (mkWorld ["go"] [] [] (fun _ => None)) Hlin).
Defined.

(** The third send of the connection fails: the client has gone. *)
Definition third_send_closed (n : nat) : option error :=
  if Nat.eqb n 2 then Some ConnectionClosed else None.

Lemma stream_until_send_fails_witness :
  (forall j, (j < 2)%nat -> third_send_closed (0 + j)%nat = None)
  /\ stream_video loads_start_4k linspace_floor shift_127 shift_127 shift_254 5
       (mkWorld ["go"] [] [] third_send_closed)
     = (Ok tt, mkWorld []
          ([] ++ map (get_frame_bytes linspace_floor shift_127 shift_127 shift_254 3840 2160)
                     (seq 0 2))
          ([] ++ [LogClientConnected; LogStartRequest 3840 2160; LogInitialized 3840 2160]
              ++ repeat LogTimings 2 ++ [error_log ConnectionClosed; LogClientDisconnected])
          third_send_closed).
Proof.
  assert (Hok : forall j, (j < 2)%nat -> third_send_closed (0 + j)%nat = None).
  { intros j Hj. destruct j as [|[|j]]; [reflexivity|reflexivity|lia]. }
  split; [exact Hok|].
  exact (stream_until_send_fails loads_start_4k linspace_floor shift_127 shift_127 shift_254
           5 2 (mkWorld ["go"] [] [] third_send_closed) "go" []
           [("action", JStr "start"); ("resolution", JStr "4K (3840x2160)")] 3840 2160
           ConnectionClosed eq_refl eq_refl eq_refl eq_refl ltac:(lia) Hok eq_refl).
Defined.

Lemma stream_runs_while_sends_succeed_witness :
  (forall j, (j < 2)%nat -> (fun _ : nat => @None error) (0 + j)%nat = None)
  /\ stream_video loads_start_4k linspace_floor shift_127 shift_127 shift_254 2
       (mkWorld ["go"] [] [] (fun _ => None))
     = (Streaming, mkWorld []
          ([] ++ map (get_frame_bytes linspace_floor shift_127 shift_127 shift_254 3840 2160)
                     (seq 0 2))
          ([] ++ [LogClientConnected; LogStartRequest 3840 2160; LogInitialized 3840 2160]
              ++ repeat LogTimings 2)
          (fun _ => None)).
Proof.
  assert (Hok : forall j, (j < 2)%nat -> (fun _ : nat => @None error) (0 + j)%nat = None)
    by reflexivity.
  split; [exact Hok|].
  exact (stream_runs_while_sends_succeed loads_start_4k linspace_floor shift_127 shift_127
           shift_254 2 (mkWorld ["go"] [] [] (fun _ => None)) "go" []
           [("action", JStr "start"); ("resolution", JStr "4K (3840x2160)")] 3840 2160
           eq_refl eq_refl eq_refl eq_refl Hok).
Defined.

Lemma non_start_request_streams_nothing_witness :
  obj_get [("action", JStr "stop")] "action" <> Some (JStr "start")
  /\ stream_video (fun _ => Some (JObj [("action", JStr "stop")])) linspace_floor shift_127
       shift_127 shift_254 4 (mkWorld ["stop"] [] [] (fun _ => None))
     = (Ok tt, mkWorld [] [] ([] ++ [LogClientConnected; LogClientDisconnected])
                       (fun _ => None)).
Proof.
  assert (Ha : obj_get [("action", JStr "stop")] "action" <> Some (JStr "start"))
    by discriminate.
  split; [exact Ha|].
  exact (non_start_request_streams_nothing (fun _ => Some (JObj [("action", JStr "stop")]))
           linspace_floor shift_127 shift_127 shift_254 4
           (mkWorld ["stop"] [] [] (fun _ => None)) "stop" [] [("action", JStr "stop")]
           eq_refl eq_refl Ha).
Defined.

(** A start request whose resolution is a list. *)
Definition loads_list_resolution (s : string) : option json :=
  Some (JObj [("action", JStr "start"); ("resolution", JArr [JNum 1280; JNum 720])]).

Lemma setup_failure_streams_nothing_witness :
  ((incoming (mkWorld ["go"] [] [] (fun _ => None)) = [] /\ @nil string = []
    /\ TypeError = ConnectionClosed)
   \/ exists m, incoming (mkWorld ["go"] [] [] (fun _ => None)) = m :: []
      /\ ((loads_list_resolution m = None /\ TypeError = JSONDecodeError)
          \/ (exists v, loads_list_resolution m = Some v /\ (forall fs, v <> JObj fs)
                        /\ TypeError = AttributeError)
          \/ (exists fs, loads_list_resolution m = Some (JObj fs)
                         /\ obj_get fs "action" = Some (JStr "start")
                         /\ resolutions_lookup
                              (dict_get fs "resolution" (JStr "HD (1280x720)"))
                              (1280, 720) = None
                         /\ TypeError = TypeError)))
  /\ stream_video loads_list_resolution linspace_floor shift_127 shift_127 shift_254 4
       (mkWorld ["go"] [] [] (fun _ => None))
     = (Ok tt, mkWorld [] []
                 ([] ++ [LogClientConnected; error_log TypeError; LogClientDisconnected])
                 (fun _ => None)).
Proof.
  assert (Hf : (incoming (mkWorld ["go"] [] [] (fun _ => None)) = [] /\ @nil string = []
                /\ TypeError = ConnectionClosed)
    \/ exists m, incoming (mkWorld ["go"] [] [] (fun _ => None)) = m :: []
       /\ ((loads_list_resolution m = None /\ TypeError = JSONDecodeError)
           \/ (exists v, loads_list_resolution m = Some v /\ (forall fs, v <> JObj fs)
                         /\ TypeError = AttributeError)
           \/ (exists fs, loads_list_resolution m = Some (JObj fs)
                          /\ obj_get fs "action" = Some (JStr "start")
                          /\ resolutions_lookup
                               (dict_get fs "resolution" (JStr "HD (1280x720)"))
                               (1280, 720) = None
                          /\ TypeError = TypeError))).
  { right. exists "go". split; [reflexivity|]. right. right.
    exists [("action", JStr "start"); ("resolution", JArr [JNum 1280; JNum 720])].
    repeat split; reflexivity. }
  split; [exact Hf|].
  exact (setup_failure_streams_nothing loads_list_resolution linspace_floor shift_127
           shift_127 shift_254 4 (mkWorld ["go"] [] [] (fun _ => None)) [] TypeError Hf).
Defined.


End Bridge.
